(** * In-memory document store of the Mergington High School API

    A shallow embedding of [src/backend/database.py]: the class
    [InMemoryCollection] (a dict-backed collection with a PyMongo-like
    interface) and [init_database], followed by the properties of the
    specification that were checked against it.

    Conventions of the embedding.
    - Python values are the JSON-like values the routers pass around:
      [None], booleans, integers, strings, lists and dicts with string keys.
      Floating point numbers are left out.
    - A dict is an association list in insertion order; assigning to an
      existing key keeps its position, as in Python.
    - Values are trees: an argument of a call shares no mutable object with
      another argument or with the store, as when the routers build them from
      literals.  On such values [copy.deepcopy] is a structural clone.
    - An operation that can raise returns a [res]; an operation that mutates
      the collection returns the new collection next to its result, because a
      Python exception does not roll the mutation back. *)

From Stdlib Require Import String Ascii List ZArith Bool Lia.
From Stdlib Require Import Permutation Sorted.
Import ListNotations.
Set Warnings "-register-all".
Local Open Scope string_scope.
Local Open Scope Z_scope.

(** ** Exceptions and fallible results *)

Inductive exn : Type :=
| TypeError
| KeyError
| AttributeError.

Inductive res (A : Type) : Type :=
| Ok (a : A)
| Raise (e : exn).

Arguments Ok {A} a.
Arguments Raise {A} e.

Definition bind {A B : Type} (r : res A) (k : A -> res B) : res B :=
  match r with
  | Ok a => k a
  | Raise e => Raise e
  end.

Notation "x <- r ;; k" := (bind r (fun x => k))
  (at level 61, r at next level, right associativity).

(** ** Values *)

Inductive pyval : Type :=
| VNone
| VBool (b : bool)
| VInt (n : Z)
| VStr (s : string)
| VList (l : list pyval)
| VDict (d : list (string * pyval)).

(** A Python dict with string keys, in insertion order. *)
Definition dict : Type := list (string * pyval).

Definition isinstance_dict (v : pyval) : bool :=
  match v with VDict _ => true | _ => false end.

Definition isinstance_list (v : pyval) : bool :=
  match v with VList _ => true | _ => false end.

(** ** Dicts with string keys *)

(** [d.get(k)] without a default: [None] stands for Python's [None] result
    only at the call sites; here absence is kept apart. *)
Fixpoint dict_find (k : string) (d : dict) : option pyval :=
  match d with
  | [] => None
  | (k', v) :: d' => if String.eqb k k' then Some v else dict_find k d'
  end.

(** [d.get(k, default)] *)
Definition dict_get (d : dict) (k : string) (default : pyval) : pyval :=
  match dict_find k d with
  | Some v => v
  | None => default
  end.

(** [k in d] *)
Definition dict_mem (k : string) (d : dict) : bool :=
  match dict_find k d with
  | Some _ => true
  | None => false
  end.

(** [d[k] = v]: an existing key keeps its place, a new one goes last. *)
Fixpoint dict_set (d : dict) (k : string) (v : pyval) : dict :=
  match d with
  | [] => [(k, v)]
  | (k', v') :: d' =>
      if String.eqb k k' then (k', v) :: d' else (k', v') :: dict_set d' k v
  end.

(** ** Equality and order of values *)

(** Python's [==].  [bool] is a subclass of [int], so [True == 1]; two dicts
    are equal when they have the same keys with equal values, in any order. *)
Fixpoint py_eq (a b : pyval) {struct a} : bool :=
  match a, b with
  | VNone, VNone => true
  | VBool x, VBool y => Bool.eqb x y
  | VBool x, VInt n => Z.eqb (Z.b2z x) n
  | VInt n, VBool y => Z.eqb n (Z.b2z y)
  | VInt n, VInt m => Z.eqb n m
  | VStr s, VStr t => String.eqb s t
  | VList xs, VList ys =>
      (fix eq_items (xs ys : list pyval) {struct xs} : bool :=
         match xs, ys with
         | [], [] => true
         | x :: xs', y :: ys' => py_eq x y && eq_items xs' ys'
         | _, _ => false
         end) xs ys
  | VDict d, VDict e =>
      Nat.eqb (length d) (length e) &&
      (fix eq_fields (d : dict) : bool :=
         match d with
         | [] => true
         | (k, v) :: d' =>
             match dict_find k e with
             | Some w => py_eq v w
             | None => false
             end && eq_fields d'
         end) d
  | _, _ => false
  end.

(** The number a [bool] or an [int] stands for in a comparison. *)
Definition as_number (v : pyval) : option Z :=
  match v with
  | VBool b => Some (Z.b2z b)
  | VInt n => Some n
  | _ => None
  end.

(** Python's [<].  Numbers compare with numbers and strings with strings
    (by code point, which is the byte order of their UTF-8 encoding); lists
    compare lexicographically, the first pair of unequal items deciding;
    every other combination raises [TypeError]. *)
Fixpoint py_lt (a b : pyval) {struct a} : res bool :=
  match a, b with
  | VBool x, VBool y => Ok (Z.ltb (Z.b2z x) (Z.b2z y))
  | VBool x, VInt n => Ok (Z.ltb (Z.b2z x) n)
  | VInt n, VBool y => Ok (Z.ltb n (Z.b2z y))
  | VInt n, VInt m => Ok (Z.ltb n m)
  | VStr s, VStr t => Ok (String.ltb s t)
  | VList xs, VList ys =>
      (fix lt_items (xs ys : list pyval) {struct xs} : res bool :=
         match xs, ys with
         | [], [] => Ok false
         | [], _ :: _ => Ok true
         | _ :: _, [] => Ok false
         | x :: xs', y :: ys' =>
             if py_eq x y then lt_items xs' ys' else py_lt x y
         end) xs ys
  | _, _ => Raise TypeError
  end.

(** [a > b] on these types is [b < a]. *)
Definition py_gt (a b : pyval) : res bool := py_lt b a.

(** Values that can be keys of a dict or members checked against one. *)
Definition hashable (v : pyval) : bool :=
  match v with
  | VList _ | VDict _ => false
  | _ => true
  end.

(** ** Strings *)

(** [s.split(".")] *)
Fixpoint split_dot (s : string) : list string :=
  match s with
  | EmptyString => [EmptyString]
  | String c s' =>
      if Ascii.eqb c "."%char then EmptyString :: split_dot s'
      else match split_dot s' with
           | [] => [String c EmptyString]
           | p :: ps => String c p :: ps
           end
  end.

(** [s.lstrip("$")] *)
Fixpoint lstrip_dollar (s : string) : string :=
  match s with
  | EmptyString => EmptyString
  | String c s' => if Ascii.eqb c "$"%char then lstrip_dollar s' else s
  end.

(** [s.startswith("$")] *)
Definition startswith_dollar (s : string) : bool :=
  match s with
  | String c _ => Ascii.eqb c "$"%char
  | EmptyString => false
  end.

(** [sub in s] for two strings. *)
Fixpoint str_contains (sub s : string) : bool :=
  String.prefix sub s ||
  match s with
  | EmptyString => false
  | String _ s' => str_contains sub s'
  end.

(** ** Membership: Python's [x in container] *)

Definition list_contains (x : pyval) (l : list pyval) : bool :=
  existsb (fun e => py_eq x e) l.

(** [x in c]: a list is searched with [==], a string for a substring, a dict
    for a key; anything else is not iterable. *)
Definition py_in (x c : pyval) : res bool :=
  match c with
  | VList l => Ok (list_contains x l)
  | VStr s =>
      match x with
      | VStr sub => Ok (str_contains sub s)
      | _ => Raise TypeError
      end
  | VDict d =>
      match x with
      | VStr k => Ok (dict_mem k d)
      | VList _ | VDict _ => Raise TypeError
      | _ => Ok false
      end
  | _ => Raise TypeError
  end.

(** [copy.deepcopy]: a recursive clone. *)
Fixpoint deepcopy (v : pyval) : pyval :=
  match v with
  | VList l => VList (map deepcopy l)
  | VDict d =>
      VDict ((fix copy_fields (d : dict) : dict :=
                match d with
                | [] => []
                | (k, w) :: d' => (k, deepcopy w) :: copy_fields d'
                end) d)
  | _ => v
  end.

Definition deepcopy_dict (d : dict) : dict :=
  match deepcopy (VDict d) with
  | VDict d' => d'
  | _ => d
  end.

(** ** Dicts keyed by values

    [_docs] and the [groups] of a [$group] stage are dicts whose keys are
    values.  A key must be hashable; two keys are the same when they are
    [==]; assigning to an existing key keeps the key object already there. *)

Fixpoint store_find {V : Type} (k : pyval) (s : list (pyval * V)) : option V :=
  match s with
  | [] => None
  | (k', v) :: s' => if py_eq k k' then Some v else store_find k s'
  end.

Fixpoint store_set {V : Type} (s : list (pyval * V)) (k : pyval) (v : V)
  : list (pyval * V) :=
  match s with
  | [] => [(k, v)]
  | (k', v') :: s' =>
      if py_eq k k' then (k', v) :: s' else (k', v') :: store_set s' k v
  end.

(** The entry of key [k], with the entries before and after it. *)
Fixpoint store_split {V : Type} (k : pyval) (s : list (pyval * V))
  : option (list (pyval * V) * (pyval * V) * list (pyval * V)) :=
  match s with
  | [] => None
  | (k', v) :: s' =>
      if py_eq k k' then Some ([], (k', v), s')
      else match store_split k s' with
           | Some (pre, e, post) => Some ((k', v) :: pre, e, post)
           | None => None
           end
  end.

(** ** The collection *)

Record InMemoryCollection : Type := mkCollection {
  _docs : list (pyval * dict)   (* keyed by _id *)
}.

Definition empty_collection : InMemoryCollection := mkCollection [].

(** [self._docs.values()] *)
Definition values (c : InMemoryCollection) : list dict := map snd (_docs c).

(** *** [_matches] *)

(** The walk along [key.split(".")] at the head of [_matches]. *)
Fixpoint resolve (value : pyval) (parts : list string) : pyval :=
  match parts with
  | [] => value
  | part :: rest =>
      match value with
      | VDict d => resolve (dict_get d part VNone) rest
      | _ => VNone
      end
  end.

(** [any(v in operand for v in value)] *)
Fixpoint any_in (vs : list pyval) (operand : pyval) : res bool :=
  match vs with
  | [] => Ok false
  | v :: vs' =>
      b <- py_in v operand ;;
      if b then Ok true else any_in vs' operand
  end.

(** One operator of a condition: [Ok false] is the [return False] of the
    source, [Ok true] lets the loop go on.  An unknown operator falls through
    the [if]/[elif] chain. *)
Definition check_op (value : pyval) (op : string) (operand : pyval) : res bool :=
  if String.eqb op "$in" then
    match value with
    | VList vs => any_in vs operand
    | _ => py_in value operand
    end
  else if String.eqb op "$gte" then
    match value with
    | VNone => Ok false
    | _ => b <- py_lt value operand ;; Ok (negb b)
    end
  else if String.eqb op "$lte" then
    match value with
    | VNone => Ok false
    | _ => b <- py_gt value operand ;; Ok (negb b)
    end
  else Ok true.

Fixpoint check_condition (value : pyval) (condition : dict) : res bool :=
  match condition with
  | [] => Ok true
  | (op, operand) :: rest =>
      b <- check_op value op operand ;;
      if b then check_condition value rest else Ok false
  end.

Fixpoint _matches (doc : dict) (query : dict) : res bool :=
  match query with
  | [] => Ok true
  | (key, condition) :: rest =>
      let value := resolve (VDict doc) (split_dot key) in
      b <- match condition with
           | VDict ops => check_condition value ops
           | _ => Ok (py_eq value condition)
           end ;;
      if b then _matches doc rest else Ok false
  end.

(** *** [count_documents] *)

Fixpoint count_matching (docs : list dict) (filter : dict) : res nat :=
  match docs with
  | [] => Ok 0%nat
  | d :: docs' =>
      b <- _matches d filter ;;
      n <- count_matching docs' filter ;;
      Ok (if b then S n else n)
  end.

Definition count_documents (c : InMemoryCollection) (filter : dict) : res nat :=
  match filter with
  | [] => Ok (length (_docs c))
  | _ => count_matching (values c) filter
  end.

(** *** [insert_one] *)

Definition insert_one (c : InMemoryCollection) (document : dict)
  : InMemoryCollection * res unit :=
  let doc := deepcopy_dict document in
  let _id := dict_get doc "_id" VNone in
  if hashable _id then (mkCollection (store_set (_docs c) _id doc), Ok tt)
  else (c, Raise TypeError).

(** *** [find_one] and [find] *)

(** The first document of the scan that matches, with what is around it. *)
Fixpoint scan (s : list (pyval * dict)) (filter : dict)
  : res (option (list (pyval * dict) * (pyval * dict) * list (pyval * dict))) :=
  match s with
  | [] => Ok None
  | (k, d) :: s' =>
      b <- _matches d filter ;;
      if b then Ok (Some ([], (k, d), s'))
      else
        r <- scan s' filter ;;
        Ok (match r with
            | Some (pre, e, post) => Some ((k, d) :: pre, e, post)
            | None => None
            end)
  end.

Definition is_none (v : pyval) : bool :=
  match v with VNone => true | _ => false end.

Definition find_one (c : InMemoryCollection) (filter : dict) : res (option dict) :=
  let _id := dict_get filter "_id" VNone in
  if negb (is_none _id) && Nat.eqb (length filter) 1 then
    if hashable _id then
      Ok (match store_find _id (_docs c) with
          | Some ((_ :: _) as doc) => Some (deepcopy_dict doc)
          | _ => None
          end)
    else Raise TypeError
  else
    r <- scan (_docs c) filter ;;
    Ok (match r with
        | Some (_, (_, doc), _) => Some (deepcopy_dict doc)
        | None => None
        end).

Fixpoint find_all (docs : list dict) (filter : dict) : res (list dict) :=
  match docs with
  | [] => Ok []
  | doc :: docs' =>
      b <- _matches doc filter ;;
      results <- find_all docs' filter ;;
      Ok (if b then deepcopy_dict doc :: results else results)
  end.

(** [filter] is [None] when the argument is left out. *)
Definition find (c : InMemoryCollection) (filter : option dict) : res (list dict) :=
  match filter with
  | None | Some [] => Ok (map deepcopy_dict (values c))
  | Some f => find_all (values c) f
  end.

(** *** [update_one] *)

(** [lst.remove(value)]: the first item equal to [value] goes. *)
Fixpoint list_remove (value : pyval) (lst : list pyval) : list pyval :=
  match lst with
  | [] => []
  | x :: lst' => if py_eq value x then lst' else x :: list_remove value lst'
  end.

(** The body of the inner loop, for one [(field, value)] of one operator.
    The document comes back also when the operator raises. *)
Definition apply_field (doc : dict) (op field : string) (value : pyval)
  : dict * res unit :=
  if String.eqb op "$push" then
    match dict_find field doc with
    | None => (dict_set doc field (VList [value]), Ok tt)
    | Some (VList l) => (dict_set doc field (VList (l ++ [value])), Ok tt)
    | Some _ => (doc, Raise AttributeError)
    end
  else if String.eqb op "$pull" then
    match dict_get doc field (VList []) with
    | VList lst =>
        if list_contains value lst
        then (dict_set doc field (VList (list_remove value lst)), Ok tt)
        else (doc, Ok tt)
    | lst =>
        match py_in value lst with
        | Ok true => (doc, Raise AttributeError)
        | Ok false => (doc, Ok tt)
        | Raise e => (doc, Raise e)
        end
    end
  else if String.eqb op "$set" then (dict_set doc field value, Ok tt)
  else (doc, Ok tt).

Fixpoint apply_fields (doc : dict) (op : string) (fields : dict)
  : dict * res unit :=
  match fields with
  | [] => (doc, Ok tt)
  | (field, value) :: rest =>
      match apply_field doc op field value with
      | (doc', Ok _) => apply_fields doc' op rest
      | (doc', Raise e) => (doc', Raise e)
      end
  end.

(** The two loops over [update.items()] and [fields.items()]. *)
Fixpoint apply_update (doc : dict) (update : dict) : dict * res unit :=
  match update with
  | [] => (doc, Ok tt)
  | (op, VDict fields) :: rest =>
      match apply_fields doc op fields with
      | (doc', Ok _) => apply_update doc' rest
      | (doc', Raise e) => (doc', Raise e)
      end
  | (op, _) :: _ => (doc, Raise AttributeError)
  end.

(** The selection at the head of [update_one]: the entry of the chosen
    document with the entries around it, [None] when [doc is None]. *)
Definition select (c : InMemoryCollection) (filter : dict)
  : res (option (list (pyval * dict) * (pyval * dict) * list (pyval * dict))) :=
  let _id := dict_get filter "_id" VNone in
  if negb (is_none _id) then
    if hashable _id then Ok (store_split _id (_docs c)) else Raise TypeError
  else scan (_docs c) filter.

(** The result carries [modified_count]. *)
Definition update_one (c : InMemoryCollection) (filter update : dict)
  : InMemoryCollection * res Z :=
  match select c filter with
  | Raise e => (c, Raise e)
  | Ok None => (c, Ok 0)
  | Ok (Some (pre, (k, doc), post)) =>
      match apply_update doc update with
      | (doc', Ok _) => (mkCollection (pre ++ (k, doc') :: post), Ok 1)
      | (doc', Raise e) => (mkCollection (pre ++ (k, doc') :: post), Raise e)
      end
  end.

(** *** [aggregate] *)

Fixpoint map_res {A B : Type} (f : A -> res B) (l : list A) : res (list B) :=
  match l with
  | [] => Ok []
  | x :: l' =>
      y <- f x ;;
      ys <- map_res f l' ;;
      Ok (y :: ys)
  end.

(** [$unwind]: the walk along [parts], where a missing key or a value that
    is not a dict gives an empty list. *)
Fixpoint unwind_value (value : pyval) (parts : list string) : pyval :=
  match parts with
  | [] => value
  | p :: rest =>
      unwind_value
        (match value with
         | VDict d => dict_get d p (VList [])
         | _ => VList []
         end) rest
  end.

(** [obj = d; for p in parts[:-1]: obj = obj[p]; obj[parts[-1]] = v] *)
Fixpoint set_nested (d : dict) (parts : list string) (v : pyval) : res dict :=
  match parts with
  | [] => Ok d
  | [p] => Ok (dict_set d p v)
  | p :: rest =>
      match dict_find p d with
      | Some (VDict obj) =>
          obj' <- set_nested obj rest v ;;
          Ok (dict_set d p (VDict obj'))
      | Some _ => Raise TypeError
      | None => Raise KeyError
      end
  end.

(** What one document contributes to [new_docs]. *)
Definition unwind_doc (parts : list string) (doc : dict) : res (list dict) :=
  match unwind_value (VDict doc) parts with
  | VList value => map_res (fun v => set_nested (deepcopy_dict doc) parts v) value
  | _ => Ok [doc]
  end.

Fixpoint unwind_docs (parts : list string) (docs : list dict) : res (list dict) :=
  match docs with
  | [] => Ok []
  | doc :: docs' =>
      out <- unwind_doc parts doc ;;
      new_docs <- unwind_docs parts docs' ;;
      Ok (out ++ new_docs)%list
  end.

(** [$group]: the walk along [key_path]. *)
Fixpoint group_value (val : pyval) (key_path : list string) : pyval :=
  match key_path with
  | [] => val
  | p :: rest =>
      group_value
        (match val with
         | VDict d => dict_get d p VNone
         | _ => VNone
         end) rest
  end.

Fixpoint group_docs (key_path : option (list string)) (id_expr : pyval)
    (docs : list dict) (groups : list (pyval * dict)) : res (list (pyval * dict)) :=
  match docs with
  | [] => Ok groups
  | doc :: docs' =>
      let val := match key_path with
                 | Some ((_ :: _) as path) => group_value (VDict doc) path
                 | _ => id_expr
                 end in
      if hashable val
      then group_docs key_path id_expr docs' (store_set groups val [("_id", val)])
      else Raise TypeError
  end.

Definition group_stage (group_spec : pyval) (docs : list dict) : res (list dict) :=
  id_expr <- match group_spec with
             | VDict g =>
                 match dict_find "_id" g with
                 | Some e => Ok e
                 | None => Raise KeyError
                 end
             | _ => Raise TypeError
             end ;;
  let key_path := match id_expr with
                  | VStr s =>
                      if startswith_dollar s
                      then Some (split_dot (lstrip_dollar s))
                      else None
                  | _ => None
                  end in
  groups <- group_docs key_path id_expr docs [] ;;
  Ok (map snd groups).

(** [$sort].  [list.sort] is stable and compares keys with [<] only; a
    comparison that raises makes the sort raise.  It is modelled by a stable
    insertion sort.  On at most two items it makes the comparison CPython
    makes ([key(l[1]) < key(l[0])]); when the keys are [None], numbers,
    strings or dicts it raises exactly when CPython does (some key is
    compared with a key of another kind, or with a [None] or a dict). *)
Fixpoint sort_insert {A : Type} (key : A -> pyval) (x : A) (l : list A)
  : res (list A) :=
  match l with
  | [] => Ok [x]
  | y :: l' =>
      b <- py_lt (key y) (key x) ;;
      if b then (r <- sort_insert key x l' ;; Ok (y :: r))
      else Ok (x :: y :: l')
  end.

Fixpoint stable_sort {A : Type} (key : A -> pyval) (l : list A) : res (list A) :=
  match l with
  | [] => Ok []
  | x :: l' =>
      s <- stable_sort key l' ;;
      sort_insert key x s
  end.

(** [l.sort(key=key, reverse=reverse)]: with [reverse] the list is reversed,
    sorted and reversed again, which keeps equal keys in their first order. *)
Definition list_sort {A : Type} (key : A -> pyval) (reverse : bool) (l : list A)
  : res (list A) :=
  if reverse then (r <- stable_sort key (rev l) ;; Ok (rev r))
  else stable_sort key l.

Definition sort_key (k : string) (d : dict) : pyval := dict_get d k (VStr "").

Fixpoint sort_passes (passes : dict) (docs : list dict) : res (list dict) :=
  match passes with
  | [] => Ok docs
  | (key, direction) :: rest =>
      docs' <- list_sort (sort_key key) (py_eq direction (VInt (-1))) docs ;;
      sort_passes rest docs'
  end.

(** [for key, direction in reversed(sort_spec.items())] *)
Definition sort_stage (sort_spec : dict) (docs : list dict) : res (list dict) :=
  sort_passes (rev sort_spec) docs.

Definition run_stage (stage : dict) (docs : list dict) : res (list dict) :=
  if dict_mem "$unwind" stage then
    match dict_get stage "$unwind" VNone with
    | VStr path => unwind_docs (split_dot (lstrip_dollar path)) docs
    | _ => Raise AttributeError
    end
  else if dict_mem "$group" stage then
    group_stage (dict_get stage "$group" VNone) docs
  else if dict_mem "$sort" stage then
    match dict_get stage "$sort" VNone with
    | VDict sort_spec => sort_stage sort_spec docs
    | _ => Raise AttributeError
    end
  else Ok docs.

Fixpoint run_pipeline (pipeline : list dict) (docs : list dict) : res (list dict) :=
  match pipeline with
  | [] => Ok docs
  | stage :: rest =>
      docs' <- run_stage stage docs ;;
      run_pipeline rest docs'
  end.

Definition aggregate (c : InMemoryCollection) (pipeline : list dict)
  : res (list dict) :=
  run_pipeline pipeline (map deepcopy_dict (values c)).

(** ** The two collections and their seed data *)

(** [{"_id": x, **other}]: the keys of [other] are assigned in turn. *)
Definition dict_update (d other : dict) : dict :=
  fold_left (fun acc kv => dict_set acc (fst kv) (snd kv)) other d.

Definition initial_activities : dict :=
  [
   ("Chess Club",
    VDict
      [("description", VStr "Learn strategies and compete in chess tournaments");
       ("schedule", VStr "Mondays and Fridays, 3:15 PM - 4:45 PM");
       ("schedule_details", VDict
          [("days", VList [VStr "Monday"; VStr "Friday"]);
           ("start_time", VStr "15:15");
           ("end_time", VStr "16:45")]);
       ("max_participants", VInt 12);
       ("participants", VList [VStr "michael@mergington.edu"; VStr "daniel@mergington.edu"])]);
   ("Programming Class",
    VDict
      [("description", VStr "Learn programming fundamentals and build software projects");
       ("schedule", VStr "Tuesdays and Thursdays, 7:00 AM - 8:00 AM");
       ("schedule_details", VDict
          [("days", VList [VStr "Tuesday"; VStr "Thursday"]);
           ("start_time", VStr "07:00");
           ("end_time", VStr "08:00")]);
       ("max_participants", VInt 20);
       ("participants", VList [VStr "emma@mergington.edu"; VStr "sophia@mergington.edu"])]);
   ("Morning Fitness",
    VDict
      [("description", VStr "Early morning physical training and exercises");
       ("schedule", VStr "Mondays, Wednesdays, Fridays, 6:30 AM - 7:45 AM");
       ("schedule_details", VDict
          [("days", VList [VStr "Monday"; VStr "Wednesday"; VStr "Friday"]);
           ("start_time", VStr "06:30");
           ("end_time", VStr "07:45")]);
       ("max_participants", VInt 30);
       ("participants", VList [VStr "john@mergington.edu"; VStr "olivia@mergington.edu"])]);
   ("Soccer Team",
    VDict
      [("description", VStr "Join the school soccer team and compete in matches");
       ("schedule", VStr "Tuesdays and Thursdays, 3:30 PM - 5:30 PM");
       ("schedule_details", VDict
          [("days", VList [VStr "Tuesday"; VStr "Thursday"]);
           ("start_time", VStr "15:30");
           ("end_time", VStr "17:30")]);
       ("max_participants", VInt 22);
       ("participants", VList [VStr "liam@mergington.edu"; VStr "noah@mergington.edu"])]);
   ("Basketball Team",
    VDict
      [("description", VStr "Practice and compete in basketball tournaments");
       ("schedule", VStr "Wednesdays and Fridays, 3:15 PM - 5:00 PM");
       ("schedule_details", VDict
          [("days", VList [VStr "Wednesday"; VStr "Friday"]);
           ("start_time", VStr "15:15");
           ("end_time", VStr "17:00")]);
       ("max_participants", VInt 15);
       ("participants", VList [VStr "ava@mergington.edu"; VStr "mia@mergington.edu"])]);
   ("Art Club",
    VDict
      [("description", VStr "Explore various art techniques and create masterpieces");
       ("schedule", VStr "Thursdays, 3:15 PM - 5:00 PM");
       ("schedule_details", VDict
          [("days", VList [VStr "Thursday"]);
           ("start_time", VStr "15:15");
           ("end_time", VStr "17:00")]);
       ("max_participants", VInt 15);
       ("participants", VList [VStr "amelia@mergington.edu"; VStr "harper@mergington.edu"])]);
   ("Drama Club",
    VDict
      [("description", VStr "Act, direct, and produce plays and performances");
       ("schedule", VStr "Mondays and Wednesdays, 3:30 PM - 5:30 PM");
       ("schedule_details", VDict
          [("days", VList [VStr "Monday"; VStr "Wednesday"]);
           ("start_time", VStr "15:30");
           ("end_time", VStr "17:30")]);
       ("max_participants", VInt 20);
       ("participants", VList [VStr "ella@mergington.edu"; VStr "scarlett@mergington.edu"])]);
   ("Math Club",
    VDict
      [("description", VStr "Solve challenging problems and prepare for math competitions");
       ("schedule", VStr "Tuesdays, 7:15 AM - 8:00 AM");
       ("schedule_details", VDict
          [("days", VList [VStr "Tuesday"]);
           ("start_time", VStr "07:15");
           ("end_time", VStr "08:00")]);
       ("max_participants", VInt 10);
       ("participants", VList [VStr "james@mergington.edu"; VStr "benjamin@mergington.edu"])]);
   ("Debate Team",
    VDict
      [("description", VStr "Develop public speaking and argumentation skills");
       ("schedule", VStr "Fridays, 3:30 PM - 5:30 PM");
       ("schedule_details", VDict
          [("days", VList [VStr "Friday"]);
           ("start_time", VStr "15:30");
           ("end_time", VStr "17:30")]);
       ("max_participants", VInt 12);
       ("participants", VList [VStr "charlotte@mergington.edu"; VStr "amelia@mergington.edu"])]);
   ("Weekend Robotics Workshop",
    VDict
      [("description", VStr "Build and program robots in our state-of-the-art workshop");
       ("schedule", VStr "Saturdays, 10:00 AM - 2:00 PM");
       ("schedule_details", VDict
          [("days", VList [VStr "Saturday"]);
           ("start_time", VStr "10:00");
           ("end_time", VStr "14:00")]);
       ("max_participants", VInt 15);
       ("participants", VList [VStr "ethan@mergington.edu"; VStr "oliver@mergington.edu"])]);
   ("Science Olympiad",
    VDict
      [("description", VStr "Weekend science competition preparation for regional and state events");
       ("schedule", VStr "Saturdays, 1:00 PM - 4:00 PM");
       ("schedule_details", VDict
          [("days", VList [VStr "Saturday"]);
           ("start_time", VStr "13:00");
           ("end_time", VStr "16:00")]);
       ("max_participants", VInt 18);
       ("participants", VList [VStr "isabella@mergington.edu"; VStr "lucas@mergington.edu"])]);
   ("Sunday Chess Tournament",
    VDict
      [("description", VStr "Weekly tournament for serious chess players with rankings");
       ("schedule", VStr "Sundays, 2:00 PM - 5:00 PM");
       ("schedule_details", VDict
          [("days", VList [VStr "Sunday"]);
           ("start_time", VStr "14:00");
           ("end_time", VStr "17:00")]);
       ("max_participants", VInt 16);
       ("participants", VList [VStr "william@mergington.edu"; VStr "jacob@mergington.edu"])])
  ].

(** The module-level collections, as one state. *)
Record Store : Type := mkStore {
  activities_collection : InMemoryCollection;
  teachers_collection : InMemoryCollection
}.

Definition empty_store : Store := mkStore empty_collection empty_collection.

(** [for name, details in initial_activities.items(): insert_one(...)] *)
Fixpoint seed_activities (c : InMemoryCollection) (items : dict)
  : InMemoryCollection * res unit :=
  match items with
  | [] => (c, Ok tt)
  | (name, VDict details) :: rest =>
      match insert_one c (dict_update [("_id", VStr name)] details) with
      | (c', Ok _) => seed_activities c' rest
      | (c', Raise e) => (c', Raise e)
      end
  | (name, _) :: _ => (c, Raise TypeError)
  end.

(** [for teacher in initial_teachers: insert_one(...)] *)
Fixpoint seed_teachers (c : InMemoryCollection) (teachers : list dict)
  : InMemoryCollection * res unit :=
  match teachers with
  | [] => (c, Ok tt)
  | teacher :: rest =>
      match dict_find "username" teacher with
      | None => (c, Raise KeyError)
      | Some username =>
          match insert_one c (dict_update [("_id", username)] teacher) with
          | (c', Ok _) => seed_teachers c' rest
          | (c', Raise e) => (c', Raise e)
          end
      end
  end.

Section Seed.

(** [hash_password] calls Argon2, which is outside the repository.  The
    seed data hold the three hashes it returned when the module was
    loaded; they are fixed from then on. *)
Variable hash_password : string -> string.

Definition initial_teachers : list dict :=
  [[("username", VStr "mrodriguez");
    ("display_name", VStr "Ms. Rodriguez");
    ("password", VStr (hash_password "art123"));
    ("role", VStr "teacher")];
   [("username", VStr "mchen");
    ("display_name", VStr "Mr. Chen");
    ("password", VStr (hash_password "chess456"));
    ("role", VStr "teacher")];
   [("username", VStr "principal");
    ("display_name", VStr "Principal Martinez");
    ("password", VStr (hash_password "admin789"));
    ("role", VStr "admin")]].

(** Each collection is seeded when [count_documents({}) == 0]. *)
Definition init_collection (c : InMemoryCollection)
    (seed : InMemoryCollection -> InMemoryCollection * res unit)
  : InMemoryCollection * res unit :=
  match count_documents c [] with
  | Ok O => seed c
  | Ok (S _) => (c, Ok tt)
  | Raise e => (c, Raise e)
  end.

Definition init_database (s : Store) : Store * res unit :=
  match init_collection (activities_collection s)
          (fun c => seed_activities c initial_activities) with
  | (a, Raise e) => (mkStore a (teachers_collection s), Raise e)
  | (a, Ok _) =>
      match init_collection (teachers_collection s)
              (fun c => seed_teachers c initial_teachers) with
      | (t, r) => (mkStore a t, r)
      end
  end.

End Seed.

(** * Notions the properties are stated with *)

(** ** Induction over nested values *)

Section PyvalInduction.

Variable P : pyval -> Prop.
Hypothesis HNone : P VNone.
Hypothesis HBool : forall b, P (VBool b).
Hypothesis HInt : forall n, P (VInt n).
Hypothesis HStr : forall s, P (VStr s).
Hypothesis HList : forall l, Forall P l -> P (VList l).
Hypothesis HDict : forall d, Forall (fun kv => P (snd kv)) d -> P (VDict d).

Fixpoint pyval_nested_ind (v : pyval) : P v :=
  match v with
  | VNone => HNone
  | VBool b => HBool b
  | VInt n => HInt n
  | VStr s => HStr s
  | VList l =>
      HList l
        ((fix items (l : list pyval) : Forall P l :=
            match l with
            | [] => Forall_nil P
            | x :: l' => Forall_cons x (pyval_nested_ind x) (items l')
            end) l)
  | VDict d =>
      HDict d
        ((fix fields (d : list (string * pyval))
            : Forall (fun kv => P (snd kv)) d :=
            match d with
            | [] => Forall_nil _
            | kv :: d' =>
                Forall_cons kv (pyval_nested_ind (snd kv)) (fields d')
            end) d)
  end.

End PyvalInduction.

(** ** Membership, paths, results *)

(** [v] is a member of the operand list [O]: some item of [O] is [==] to it. *)
Definition member (v : pyval) (O : list pyval) : Prop :=
  exists o, In o O /\ py_eq v o = true.

(** The value at a dotted path when every segment is a key of a dict on the
    way, and nothing when the path is absent. *)
Fixpoint lookup_path (v : pyval) (parts : list string) : option pyval :=
  match parts with
  | [] => Some v
  | p :: rest =>
      match v with
      | VDict d =>
          match dict_find p d with
          | Some w => lookup_path w rest
          | None => None
          end
      | _ => None
      end
  end.

(** [modified_count] as [update_one] returns it once the operators ran. *)
Definition modified (r : res unit) : res Z :=
  match r with
  | Ok _ => Ok 1
  | Raise e => Raise e
  end.

(** A stage that has none of the keys [$unwind], [$group], [$sort]. *)
Definition unknown_stage (stage : dict) : Prop :=
  dict_mem "$unwind" stage = false /\
  dict_mem "$group" stage = false /\
  dict_mem "$sort" stage = false.

(** ** Reachable states and the invariant of [_docs] *)

(** The states a collection goes through from [InMemoryCollection()] by
    [insert_one] of documents that have an [_id] and by [update_one]. *)
Inductive reachable : InMemoryCollection -> Prop :=
| reachable_empty : reachable empty_collection
| reachable_insert : forall c document,
    reachable c ->
    dict_mem "_id" document = true ->
    reachable (fst (insert_one c document))
| reachable_update : forall c filter update,
    reachable c ->
    reachable (fst (update_one c filter update)).

(** Every stored document's own [_id] equals the key it is stored under. *)
Definition keyed_by_id (c : InMemoryCollection) : Prop :=
  forall k doc, In (k, doc) (_docs c) ->
                py_eq (dict_get doc "_id" VNone) k = true.

(** No operator of the update names the field [_id]. *)
Definition update_spares_id (update : dict) : Prop :=
  Forall (fun kv => match snd kv with
                    | VDict fields => dict_find "_id" fields = None
                    | _ => True
                    end) update.

(** ** Collections of the examples *)

(** The collection after [insert_one({"_id": "a", "x": 1})]. *)
Definition one_doc_collection : InMemoryCollection :=
  fst (insert_one empty_collection [("_id", VStr "a"); ("x", VInt 1)]).

(** The collection after [insert_one({"_id": "a"})] and
    [update_one({"_id": "a"}, {"$set": {"_id": "b"}})]. *)
Definition renamed_collection : InMemoryCollection :=
  fst (update_one (fst (insert_one empty_collection [("_id", VStr "a")]))
         [("_id", VStr "a")] [("$set", VDict [("_id", VStr "b")])]).

(** The collection after [insert_one({"_id": 1, "a": 5})] and
    [insert_one({"_id": 2})]. *)
Definition partly_keyed_collection : InMemoryCollection :=
  fst (insert_one
         (fst (insert_one empty_collection [("_id", VInt 1); ("a", VInt 5)]))
         [("_id", VInt 2)]).

(** The collection after [insert_one({"_id": 1, "a": 1, "b": 2})] and
    [insert_one({"_id": 2, "a": 1, "b": 1})]. *)
Definition two_key_collection : InMemoryCollection :=
  fst (insert_one
         (fst (insert_one empty_collection
                 [("_id", VInt 1); ("a", VInt 1); ("b", VInt 2)]))
         [("_id", VInt 2); ("a", VInt 1); ("b", VInt 1)]).

(** ** Insertion sort without exceptions

    [insert] and [isort] are [sort_insert] and [stable_sort] for a comparison
    [lt] that cannot raise. *)

Section InsertionSort.

Variable A : Type.
Variable lt : A -> A -> bool.

Fixpoint insert (x : A) (l : list A) : list A :=
  match l with
  | [] => [x]
  | y :: l' => if lt y x then y :: insert x l' else x :: y :: l'
  end.

Fixpoint isort (l : list A) : list A :=
  match l with
  | [] => []
  | x :: l' => insert x (isort l')
  end.

(** [x] comes before [y] when it is smaller, or when the two are tied and
    [Q] already put [x] first. *)
Definition lex (Q : A -> A -> Prop) (x y : A) : Prop :=
  lt x y = true \/ (lt x y = false /\ lt y x = false /\ Q x y).

End InsertionSort.

Arguments insert {A} lt x l.
Arguments isort {A} lt l.
Arguments lex {A} lt Q x y.

(** ** Keys that compare: all numbers, or all strings *)

Inductive kind : Type :=
| Numbers
| Strings.

Definition has_kind (kd : kind) (v : pyval) : bool :=
  match kd, v with
  | Numbers, (VBool _ | VInt _) => true
  | Strings, VStr _ => true
  | _, _ => false
  end.

Definition number_of (v : pyval) : Z :=
  match as_number v with
  | Some n => n
  | None => 0
  end.

Definition string_of (v : pyval) : string :=
  match v with
  | VStr s => s
  | _ => ""
  end.

(** [<] within one kind, as a total function. *)
Definition kind_lt (kd : kind) (a b : pyval) : bool :=
  match kd with
  | Numbers => number_of a <? number_of b
  | Strings => String.ltb (string_of a) (string_of b)
  end.

(** ** The order a [$sort] specification asks for *)

(** The key [(k, direction)] puts [x] strictly before [y]. *)
Definition key_before (k : string) (direction : pyval) (x y : dict) : Prop :=
  if py_eq direction (VInt (-1))
  then py_lt (sort_key k y) (sort_key k x) = Ok true
  else py_lt (sort_key k x) (sort_key k y) = Ok true.

(** Neither of [x] and [y] is smaller than the other at the key [k]. *)
Definition key_tied (k : string) (x y : dict) : bool :=
  match py_lt (sort_key k x) (sort_key k y),
        py_lt (sort_key k y) (sort_key k x) with
  | Ok false, Ok false => true
  | _, _ => false
  end.

(** The first declared key decides; the next ones break its ties. *)
Fixpoint sort_order (sort_spec : dict) (x y : dict) : Prop :=
  match sort_spec with
  | [] => True
  | (k, direction) :: rest =>
      key_before k direction x y \/
      (key_tied k x y = true /\ sort_order rest x y)
  end.

(** [x] and [y] are tied at every key. *)
Definition all_tied (sort_spec : dict) (x y : dict) : bool :=
  forallb (fun kd => key_tied (fst kd) x y) sort_spec.

(** The values at the key [k], with [""] where it is absent, are all numbers
    or all strings: [<] is defined between any two of them. *)
Definition homogeneous (k : string) (docs : list dict) : Prop :=
  exists kd, Forall (fun d => has_kind kd (sort_key k d) = true) docs.

(** [<] never raises between the values two documents hold at the key [k]
    (with [""] where it is absent) and orders these values consistently: on
    them it is a comparison [lt] that is irreflexive and transitive and whose
    complement is transitive. *)
Definition comparable (k : string) (docs : list dict) : Prop :=
  exists lt : pyval -> pyval -> bool,
    (forall a, lt a a = false) /\
    (forall a b c, lt a b = true -> lt b c = true -> lt a c = true) /\
    (forall a b c, lt b a = false -> lt c b = false -> lt c a = false) /\
    (forall x y, In x docs -> In y docs ->
       py_lt (sort_key k x) (sort_key k y)
       = Ok (lt (sort_key k x) (sort_key k y))).

(** ** Notions for the reads and writes of a collection *)

(** [_matches] answered [True] without raising. *)
Definition matchesb (filter : dict) (doc : dict) : bool :=
  match _matches doc filter with
  | Ok true => true
  | _ => false
  end.

(** Every key of [_docs] is hashable, as the keys of a Python dict are. *)
Definition keys_hashable (c : InMemoryCollection) : Prop :=
  forall k doc, In (k, doc) (_docs c) -> hashable k = true.

(** The states reached from [InMemoryCollection()] by [insert_one] and by
    [update_one] with updates that do not name the field [_id]. *)
Inductive reachable_sparing_id : InMemoryCollection -> Prop :=
| sparing_empty : reachable_sparing_id empty_collection
| sparing_insert : forall c document,
    reachable_sparing_id c ->
    reachable_sparing_id (fst (insert_one c document))
| sparing_update : forall c filter update,
    reachable_sparing_id c ->
    update_spares_id update ->
    reachable_sparing_id (fst (update_one c filter update)).

(** None of the operators of a condition is [$in], [$gte] or [$lte]. *)
Definition unknown_operators (ops : dict) : Prop :=
  Forall (fun kv => String.eqb (fst kv) "$in" = false /\
                    String.eqb (fst kv) "$gte" = false /\
                    String.eqb (fst kv) "$lte" = false) ops.

(** The operator is none of [$push], [$pull], [$set]. *)
Definition unknown_update_operator (op : string) : Prop :=
  String.eqb op "$push" = false /\
  String.eqb op "$pull" = false /\
  String.eqb op "$set" = false.

(** The [_id] of the groups of a [$group] stage are pairwise different. *)
Definition distinct_ids (docs : list dict) : Prop :=
  ForallOrdPairs
    (fun a b => py_eq (dict_get a "_id" VNone) (dict_get b "_id" VNone) = false)
    docs.

(** ** Notions for [$group] *)

(** [key_path] as [$group] computes it from [id_expr]. *)
Definition group_key_path (id_expr : pyval) : option (list string) :=
  match id_expr with
  | VStr s =>
      if startswith_dollar s then Some (split_dot (lstrip_dollar s)) else None
  | _ => None
  end.

(** [val], the grouping key of one document. *)
Definition group_key (key_path : option (list string)) (id_expr : pyval)
    (doc : dict) : pyval :=
  match key_path with
  | Some ((_ :: _) as path) => group_value (VDict doc) path
  | _ => id_expr
  end.

(** An entry of [groups]: a hashable key with the document [{"_id": v}] for
    a [v] equal to the key. *)
Definition group_ok (e : pyval * dict) : Prop :=
  hashable (fst e) = true /\
  exists v, snd e = [("_id", v)] /\ hashable v = true /\
            py_eq v (fst e) = true.

Definition distinct_keys (ks : list pyval) : Prop :=
  ForallOrdPairs (fun a b => py_eq a b = false) ks.

(** ** Notions for [$unwind] *)

(** The number of outputs of [$unwind] for one document. *)
Definition unwind_count (parts : list string) (doc : dict) : nat :=
  match lookup_path (VDict doc) parts with
  | Some (VList vs) => length vs
  | Some _ => 1
  | None => 0
  end.

(** The values [$unwind] leaves at the path of a document can be grouping
    keys: the items of a list, or the value itself when it is not a list. *)
Definition unwind_hashable (parts : list string) (doc : dict) : bool :=
  match lookup_path (VDict doc) parts with
  | Some (VList vs) => forallb hashable vs
  | Some w => hashable w
  | None => true
  end.

(** [v] is what [$unwind] puts at the path of an output of [doc]: an item of
    the list there, or the value there when it is not a list. *)
Definition unwind_item (parts : list string) (doc : dict) (v : pyval) : Prop :=
  match lookup_path (VDict doc) parts with
  | Some (VList vs) => In v vs
  | Some w => v = w
  | None => False
  end.

(** * Properties *)

(** ** Basic facts about values, dicts and stores *)

Lemma deepcopy_id : forall v, deepcopy v = v.
Proof.
  induction v using pyval_nested_ind; simpl; try reflexivity.
  - f_equal. induction H as [|x l Hx _ IH]; simpl; [reflexivity|].
    now rewrite Hx, IH.
  - f_equal. induction H as [|[k w] d Hw _ IH]; simpl; [reflexivity|].
    simpl in Hw. now rewrite Hw, IH.
Qed.

Lemma deepcopy_dict_id : forall d, deepcopy_dict d = d.
Proof.
  intros d. unfold deepcopy_dict. now rewrite deepcopy_id.
Qed.

Lemma dict_find_set_same : forall d k v, dict_find k (dict_set d k v) = Some v.
Proof.
  induction d as [|[k' v'] d IH]; intros k v; simpl.
  - now rewrite String.eqb_refl.
  - destruct (String.eqb k k') eqn:E; simpl; rewrite E; auto.
Qed.

Lemma dict_find_set_other : forall d k k' v,
  String.eqb k' k = false -> dict_find k' (dict_set d k v) = dict_find k' d.
Proof.
  induction d as [|[k0 v0] d IH]; intros k k' v Hne; simpl.
  - now rewrite Hne.
  - destruct (String.eqb k k0) eqn:E; simpl.
    + apply String.eqb_eq in E. subst k0. now rewrite Hne.
    + destruct (String.eqb k' k0); auto.
Qed.

Lemma split_dot_not_nil : forall s, split_dot s <> [].
Proof.
  destruct s as [|c s]; simpl; [discriminate|].
  destruct (Ascii.eqb c "."%char); [discriminate|].
  destruct (split_dot s); discriminate.
Qed.

Lemma store_split_app : forall (k : pyval) (s pre post : list (pyval * dict)) e,
  store_split k s = Some (pre, e, post) -> s = (pre ++ e :: post)%list.
Proof.
  intros k s. induction s as [|[k' v] s IH]; intros pre post e H; simpl in H.
  - discriminate.
  - destruct (py_eq k k').
    + inversion H; subst. reflexivity.
    + destruct (store_split k s) as [[[pre' e'] post']|]; [|discriminate].
      inversion H; subst. simpl. f_equal. now apply IH.
Qed.

Lemma store_split_find : forall (k : pyval) (s : list (pyval * dict)) doc,
  store_find k s = Some doc ->
  exists pre k' post,
    store_split k s = Some (pre, (k', doc), post) /\ py_eq k k' = true.
Proof.
  intros k s. induction s as [|[k' v] s IH]; intros doc H; simpl in *.
  - discriminate.
  - destruct (py_eq k k') eqn:E.
    + inversion H; subst. exists [], k', s. auto.
    + destruct (IH doc H) as (pre & k2 & post & Hs & Hk).
      rewrite Hs. exists ((k', v) :: pre), k2, post. auto.
Qed.

Lemma store_find_set_same : forall (s : list (pyval * dict)) k v,
  py_eq k k = true -> store_find k (store_set s k v) = Some v.
Proof.
  induction s as [|[k' v'] s IH]; intros k v Hk; simpl.
  - now rewrite Hk.
  - destruct (py_eq k k') eqn:E; simpl; rewrite E; auto.
Qed.

(** ** The [$in] operator of [_matches] *)

Lemma list_contains_member : forall v O,
  list_contains v O = true <-> member v O.
Proof.
  intros v O. unfold list_contains, member. apply existsb_exists.
Qed.

Lemma any_in_list : forall vs O,
  any_in vs (VList O) = Ok (existsb (fun v => list_contains v O) vs).
Proof.
  induction vs as [|v vs IH]; intros O; simpl; [reflexivity|].
  destruct (list_contains v O); simpl; [reflexivity|apply IH].
Qed.

Lemma matches_in_eval : forall doc path O,
  _matches doc [(path, VDict [("$in", VList O)])] =
  Ok (match resolve (VDict doc) (split_dot path) with
      | VList vs => existsb (fun v => list_contains v O) vs
      | v => list_contains v O
      end).
Proof.
  intros doc path O. cbn [_matches check_condition].
  unfold check_op. cbn [String.eqb Ascii.eqb Bool.eqb].
  destruct (resolve (VDict doc) (split_dot path)) as [ | b | n | s | vs | d];
    cbn [py_in bind]; try (now destruct (list_contains _ O)).
  rewrite any_in_list. cbn [bind].
  now destruct (existsb _ vs).
Qed.

(** C7.  For a filter [{path: {"$in": O}}] with a list operand [O],
    [_matches] returns without raising, and its answer is: when the value
    resolved at [path] is a list, whether at least one of its items is a
    member of [O]; otherwise whether the resolved value itself (which is
    [None] when the path is absent) is a member of [O].  A document with
    [tags = ["a", "b"]] matches [{tags: {"$in": ["b", "c"]}}] and does not
    match [{tags: {"$in": ["x", "y"]}}]. *)
Theorem matches_in_semantics :
  (forall (doc : dict) (path : string) (O : list pyval),
     exists b,
       _matches doc [(path, VDict [("$in", VList O)])] = Ok b /\
       (b = true <->
        match resolve (VDict doc) (split_dot path) with
        | VList vs => exists v, In v vs /\ member v O
        | v => member v O
        end)) /\
  _matches [("tags", VList [VStr "a"; VStr "b"])]
           [("tags", VDict [("$in", VList [VStr "b"; VStr "c"])])] = Ok true /\
  _matches [("tags", VList [VStr "a"; VStr "b"])]
           [("tags", VDict [("$in", VList [VStr "x"; VStr "y"])])] = Ok false.
Proof.
  split; [|split; reflexivity].
  intros doc path O. eexists. split; [apply matches_in_eval|].
  destruct (resolve (VDict doc) (split_dot path)) as [ | b | n | s | vs | d];
    try apply list_contains_member.
  rewrite existsb_exists.
  split; intros (v & Hv & Hm); exists v; split; auto;
    now apply list_contains_member.
Qed.

(** ** [insert_one] of a document without [_id] *)

Lemma store_set_twice_keys : forall (s : list (pyval * dict)) k v v',
  py_eq k k = true ->
  map fst (store_set (store_set s k v) k v') = map fst (store_set s k v).
Proof.
  induction s as [|[k0 v0] s IH]; intros k v v' Hk; simpl.
  - now rewrite Hk.
  - destruct (py_eq k k0) eqn:E; simpl; rewrite E; simpl; [reflexivity|].
    f_equal. now apply IH.
Qed.

Lemma store_find_set_none : forall (s : list (pyval * dict)) k v,
  py_eq k VNone = false ->
  store_find k (store_set s VNone v) = store_find k s.
Proof.
  induction s as [|[k0 v0] s IH]; intros k v Hk; cbn [store_set store_find].
  - now rewrite Hk.
  - destruct (py_eq VNone k0) eqn:E; cbn [store_find].
    + destruct k0; try discriminate. now rewrite Hk.
    + destruct (py_eq k k0); auto.
Qed.

(** C10.  [insert_one] of a document without an [_id] field does not raise:
    the copy of the document is stored under the key [None].  Inserting
    another document without [_id] does not raise either and replaces the
    first one: the key [None] now holds the second document, the keys of the
    collection are the same as before and every other key keeps its
    document. *)
Theorem insert_one_without_id : forall (c : InMemoryCollection) (d1 d2 : dict),
  dict_find "_id" d1 = None ->
  dict_find "_id" d2 = None ->
  exists c1 c2,
    insert_one c d1 = (c1, Ok tt) /\
    store_find VNone (_docs c1) = Some d1 /\
    insert_one c1 d2 = (c2, Ok tt) /\
    store_find VNone (_docs c2) = Some d2 /\
    map fst (_docs c2) = map fst (_docs c1) /\
    (forall k, py_eq k VNone = false ->
               store_find k (_docs c2) = store_find k (_docs c1)).
Proof.
  intros c d1 d2 H1 H2.
  unfold insert_one. rewrite !deepcopy_dict_id.
  unfold dict_get. rewrite H1, H2. cbn [hashable _docs].
  do 2 eexists. repeat split.
  - now apply store_find_set_same.
  - now apply store_find_set_same.
  - now apply store_set_twice_keys.
  - intros k Hk. cbn [_docs]. now apply store_find_set_none.
Qed.

Lemma insert_one_without_id_witness :
  exists c1 c2,
    insert_one empty_collection [("name", VStr "x")] = (c1, Ok tt) /\
    store_find VNone (_docs c1) = Some [("name", VStr "x")] /\
    insert_one c1 [("name", VStr "y")] = (c2, Ok tt) /\
    store_find VNone (_docs c2) = Some [("name", VStr "y")] /\
    map fst (_docs c2) = map fst (_docs c1) /\
    (forall k, py_eq k VNone = false ->
               store_find k (_docs c2) = store_find k (_docs c1)).
Proof.
  apply (insert_one_without_id empty_collection
           [("name", VStr "x")] [("name", VStr "y")]); reflexivity.
Defined.

(** ** Selection in [update_one] *)

Lemma is_none_false : forall v, v <> VNone -> is_none v = false.
Proof.
  intros v H. destruct v; try reflexivity. now elim H.
Qed.

Lemma select_by_id : forall c filter _id,
  dict_find "_id" filter = Some _id ->
  _id <> VNone ->
  hashable _id = true ->
  select c filter = Ok (store_split _id (_docs c)).
Proof.
  intros c filter _id Hf Hn Hh. unfold select, dict_get.
  rewrite Hf, (is_none_false _ Hn), Hh. reflexivity.
Qed.

(** C9, as the code has it.  When the filter of [update_one] has a hashable
    [_id] that is not [None] and a document is stored under that [_id], that
    document is the one selected, whatever the other conditions of the
    filter are: the call behaves as with the filter [{"_id": _id}] alone and
    the operators of the update are applied to that stored document in
    place.  It returns [modified_count] 1 when the operators apply without
    raising; an operator that raises passes its exception on, the document
    keeping what the operators before it did. *)
Theorem update_one_selects_by_id :
  forall (c : InMemoryCollection) (filter update : dict) (_id : pyval) (doc : dict),
    dict_find "_id" filter = Some _id ->
    _id <> VNone ->
    hashable _id = true ->
    store_find _id (_docs c) = Some doc ->
    update_one c filter update = update_one c [("_id", _id)] update /\
    exists pre k post,
      _docs c = (pre ++ (k, doc) :: post)%list /\
      py_eq _id k = true /\
      update_one c filter update =
        (mkCollection (pre ++ (k, fst (apply_update doc update)) :: post),
         modified (snd (apply_update doc update))) /\
      (forall doc', apply_update doc update = (doc', Ok tt) ->
         update_one c filter update =
           (mkCollection (pre ++ (k, doc') :: post), Ok 1)).
Proof.
  intros c filter update _id doc Hf Hn Hh Hd.
  destruct (store_split_find _ _ _ Hd) as (pre & k & post & Hs & Hk).
  assert (Hsel : forall f, dict_find "_id" f = Some _id ->
            update_one c f update =
              (mkCollection (pre ++ (k, fst (apply_update doc update)) :: post),
               modified (snd (apply_update doc update)))).
  { intros f Hf'. unfold update_one.
    rewrite (select_by_id c f _id Hf' Hn Hh), Hs.
    destruct (apply_update doc update) as [doc' [[]|e]]; reflexivity. }
  split.
  - rewrite (Hsel filter Hf). symmetry. apply Hsel. reflexivity.
  - exists pre, k, post. repeat split.
    + now apply store_split_app in Hs.
    + exact Hk.
    + now apply Hsel.
    + intros doc' Ha. rewrite (Hsel filter Hf), Ha. reflexivity.
Qed.

Lemma update_one_selects_by_id_witness :
  update_one
    (mkCollection [(VStr "a", [("_id", VStr "a"); ("x", VInt 1)])])
    [("_id", VStr "a"); ("x", VInt 2)]
    [("$set", VDict [("x", VInt 3)])] =
  update_one
    (mkCollection [(VStr "a", [("_id", VStr "a"); ("x", VInt 1)])])
    [("_id", VStr "a")]
    [("$set", VDict [("x", VInt 3)])].
Proof.
  apply (update_one_selects_by_id
           (mkCollection [(VStr "a", [("_id", VStr "a"); ("x", VInt 1)])])
           [("_id", VStr "a"); ("x", VInt 2)]
           [("$set", VDict [("x", VInt 3)])]
           (VStr "a") [("_id", VStr "a"); ("x", VInt 1)]);
    [reflexivity | discriminate | reflexivity | reflexivity].
Defined.

(** C9, as it is stated, fails: with [{"_id": "a", "x": 1}] stored, the
    filter [{"_id": "a"}] and the update [{"$push": {"x": 2}}], the document
    is selected but [1.append] raises [AttributeError]; the call does not
    return [modified_count] 1. *)
Lemma update_one_by_id_can_raise :
  ~ (forall (c : InMemoryCollection) (filter update : dict) (_id : pyval)
            (doc : dict),
       dict_find "_id" filter = Some _id ->
       _id <> VNone ->
       hashable _id = true ->
       store_find _id (_docs c) = Some doc ->
       snd (update_one c filter update) = Ok 1).
Proof.
  intros H.
  specialize (H one_doc_collection [("_id", VStr "a")]
                [("$push", VDict [("x", VInt 2)])] (VStr "a")
                [("_id", VStr "a"); ("x", VInt 1)]
                eq_refl ltac:(discriminate) eq_refl eq_refl).
  discriminate H.
Qed.

(** ** [update_one] with a filter that matches nothing *)

Lemma scan_none_count : forall s filter,
  scan s filter = Ok None -> count_matching (map snd s) filter = Ok 0%nat.
Proof.
  induction s as [|[k d] s IH]; intros filter H; simpl in *; [reflexivity|].
  destruct (_matches d filter) as [[|]|e]; simpl in *; try discriminate.
  destruct (scan s filter) as [[[[pre e] post]|]|e] eqn:E; simpl in *;
    try discriminate.
  now rewrite (IH filter E).
Qed.

Lemma count_zero_scan : forall s filter,
  count_matching (map snd s) filter = Ok 0%nat -> scan s filter = Ok None.
Proof.
  induction s as [|[k d] s IH]; intros filter H; simpl in *; [reflexivity|].
  destruct (_matches d filter) as [[|]|e]; simpl in *; try discriminate.
  - destruct (count_matching (map snd s) filter); simpl in *; discriminate.
  - destruct (count_matching (map snd s) filter) as [n|e] eqn:E; simpl in *;
      try discriminate.
    inversion H; subst. now rewrite (IH filter E).
Qed.

(** When the filter has no [_id], or [None] there, the documents are scanned
    with the whole filter: if none matches, nothing is modified. *)
Lemma update_one_scan_no_match : forall c filter update,
  dict_get filter "_id" VNone = VNone ->
  count_matching (values c) filter = Ok 0%nat ->
  update_one c filter update = (c, Ok 0).
Proof.
  intros c filter update Hid Hc. unfold update_one, select.
  rewrite Hid. cbn [is_none negb].
  now rewrite (count_zero_scan _ _ Hc).
Qed.

(** C1.  On the collection holding [{"_id": "a", "x": 1}], the filter
    [{"_id": "a", "x": 2}] matches no document: [count_documents] gives 0 and
    [find_one], which looks a document up by [_id] only when [_id] is the
    sole key of the filter, gives [None].  [update_one] with that filter and
    [{"$set": {"x": 3}}] nevertheless returns [modified_count] 1 and the
    stored document has become [{"_id": "a", "x": 3}]. *)
Theorem update_one_id_lookup_ignores_conditions :
  count_documents one_doc_collection [("_id", VStr "a"); ("x", VInt 2)]
    = Ok 0%nat /\
  find_one one_doc_collection [("_id", VStr "a"); ("x", VInt 2)] = Ok None /\
  update_one one_doc_collection
    [("_id", VStr "a"); ("x", VInt 2)] [("$set", VDict [("x", VInt 3)])]
    = (mkCollection [(VStr "a", [("_id", VStr "a"); ("x", VInt 3)])], Ok 1).
Proof.
  repeat split.
Qed.

(** ** Documents and the keys they are stored under *)

Lemma hashable_py_eq_refl : forall k, hashable k = true -> py_eq k k = true.
Proof.
  destruct k; simpl; try discriminate; intros _; auto.
  - apply Bool.eqb_reflx.
  - apply Z.eqb_refl.
  - apply String.eqb_refl.
Qed.

Lemma store_set_in : forall (s : list (pyval * dict)) k v k0 v0,
  In (k0, v0) (store_set s k v) ->
  In (k0, v0) s \/ (v0 = v /\ (k0 = k \/ py_eq k k0 = true)).
Proof.
  induction s as [|[k' v'] s IH]; intros k v k0 v0 H; simpl in H.
  - destruct H as [H|[]]. inversion H; subst. right. auto.
  - destruct (py_eq k k') eqn:E; destruct H as [H|H].
    + inversion H; subst. right. auto.
    + left. now right.
    + left. now left.
    + destruct (IH _ _ _ _ H) as [H'|H']; [left; now right|now right].
Qed.

(** [insert_one] stores the document under its own [_id]. *)
Lemma insert_one_keeps_keyed_by_id : forall c document,
  keyed_by_id c -> keyed_by_id (fst (insert_one c document)).
Proof.
  intros c document Hc. unfold insert_one. rewrite deepcopy_dict_id.
  destruct (hashable (dict_get document "_id" VNone)) eqn:Hh; [|exact Hc].
  intros k doc Hin. cbn [fst _docs] in Hin.
  destruct (store_set_in _ _ _ _ _ Hin) as [H|(-> & [->|H])].
  - now apply Hc.
  - now apply hashable_py_eq_refl.
  - exact H.
Qed.

Lemma apply_field_keeps_id : forall doc op field value,
  String.eqb "_id" field = false ->
  dict_find "_id" (fst (apply_field doc op field value)) = dict_find "_id" doc.
Proof.
  intros doc op field value Hf. unfold apply_field.
  destruct (String.eqb op "$push").
  { destruct (dict_find field doc) as [[]|]; cbn [fst];
      auto using dict_find_set_other. }
  destruct (String.eqb op "$pull").
  { destruct (dict_get doc field (VList [])) as [ | | | | lst | ] eqn:E;
      try (destruct (py_in value _) as [[|]|]; reflexivity).
    destruct (list_contains value lst); cbn [fst];
      auto using dict_find_set_other. }
  destruct (String.eqb op "$set"); cbn [fst]; auto using dict_find_set_other.
Qed.

Lemma apply_fields_keeps_id : forall fields doc op,
  dict_find "_id" fields = None ->
  dict_find "_id" (fst (apply_fields doc op fields)) = dict_find "_id" doc.
Proof.
  induction fields as [|[field value] rest IH]; intros doc op H; simpl;
    [reflexivity|].
  cbn [dict_find] in H.
  destruct (String.eqb "_id" field) eqn:Hf; [discriminate|].
  pose proof (apply_field_keeps_id doc op field value Hf) as Hk.
  destruct (apply_field doc op field value) as [doc' [[]|e]]; cbn [fst] in *.
  - now rewrite IH.
  - exact Hk.
Qed.

Lemma apply_update_keeps_id : forall update doc,
  update_spares_id update ->
  dict_find "_id" (fst (apply_update doc update)) = dict_find "_id" doc.
Proof.
  induction update as [|[op fields] rest IH]; intros doc H; simpl;
    [reflexivity|].
  inversion H as [|? ? Hf Hrest]; subst. cbn [snd] in Hf.
  destruct fields; try reflexivity.
  pose proof (apply_fields_keeps_id d doc op Hf) as Hk.
  destruct (apply_fields doc op d) as [doc' [[]|e]]; cbn [fst] in *.
  - now rewrite IH.
  - exact Hk.
Qed.

Lemma scan_app : forall s filter pre e post,
  scan s filter = Ok (Some (pre, e, post)) -> s = (pre ++ e :: post)%list.
Proof.
  induction s as [|[k d] s IH]; intros filter pre e post H; simpl in H;
    [discriminate|].
  destruct (_matches d filter) as [[|]|]; simpl in H; try discriminate.
  - inversion H; subst. reflexivity.
  - destruct (scan s filter) as [[[[pre' e'] post']|]|] eqn:E; simpl in H;
      try discriminate.
    inversion H; subst. simpl. f_equal. now apply (IH filter).
Qed.

Lemma select_app : forall c filter pre e post,
  select c filter = Ok (Some (pre, e, post)) ->
  _docs c = (pre ++ e :: post)%list.
Proof.
  intros c filter pre e post. unfold select.
  destruct (negb (is_none (dict_get filter "_id" VNone))).
  - destruct (hashable _); [|discriminate].
    intros H. inversion H. now apply store_split_app in H1.
  - apply scan_app.
Qed.

(** An update that does not name [_id] leaves every document under its own
    [_id]. *)
Lemma update_one_keeps_keyed_by_id : forall c filter update,
  update_spares_id update ->
  keyed_by_id c ->
  keyed_by_id (fst (update_one c filter update)).
Proof.
  intros c filter update Hu Hc. unfold update_one.
  destruct (select c filter) as [[[[pre [k doc]] post]|]|] eqn:Hs;
    try exact Hc.
  apply select_app in Hs.
  pose proof (apply_update_keeps_id update doc Hu) as Hk.
  assert (Hnew : keyed_by_id
            (mkCollection (pre ++ (k, fst (apply_update doc update)) :: post))).
  { intros k0 d0 Hin. cbn [_docs] in Hin.
    apply in_app_or in Hin. destruct Hin as [Hin|[Hin|Hin]].
    - apply Hc. rewrite Hs. apply in_or_app. now left.
    - inversion Hin; subst. unfold dict_get. rewrite Hk.
      apply (Hc k0 doc). rewrite Hs. apply in_or_app. right. now left.
    - apply Hc. rewrite Hs. apply in_or_app. right. now right. }
  destruct (apply_update doc update) as [doc' [[]|e]]; exact Hnew.
Qed.

(** C2.  After [insert_one({"_id": "a"})], the call
    [update_one({"_id": "a"}, {"$set": {"_id": "b"}})] returns
    [modified_count] 1 and leaves, under the key ["a"], a document whose own
    [_id] is ["b"]: the collection is reachable and is not keyed by [_id].
    From then on the lookup by key and the scan disagree: [find_one] with
    [{"_id": "b"}] finds nothing while [find] with the same filter returns
    the document. *)
Theorem set_id_breaks_keyed_by_id :
  reachable renamed_collection /\
  _docs renamed_collection = [(VStr "a", [("_id", VStr "b")])] /\
  ~ keyed_by_id renamed_collection /\
  find_one renamed_collection [("_id", VStr "b")] = Ok None /\
  find renamed_collection (Some [("_id", VStr "b")])
    = Ok [[("_id", VStr "b")]].
Proof.
  split; [|split; [reflexivity|split; [|split; reflexivity]]].
  - unfold renamed_collection.
    apply reachable_update. apply reachable_insert; [constructor|reflexivity].
  - intros H.
    specialize (H (VStr "a") [("_id", VStr "b")] (or_introl eq_refl)).
    discriminate H.
Qed.

(** ** [$sort] with an absent key among numbers *)

(** C3.  With the documents [{"_id": 1, "a": 5}] and [{"_id": 2}], the
    pipeline [[{"$sort": {"a": 1}}]] raises [TypeError]: the document without
    ["a"] sorts under the default [""], which is compared with the number 5.
    The same default works when the other documents hold strings. *)
Theorem sort_absent_key_among_numbers :
  aggregate partly_keyed_collection [[("$sort", VDict [("a", VInt 1)])]]
    = Raise TypeError /\
  sort_stage [("a", VInt 1)] [[("_id", VInt 1); ("a", VStr "x")]; [("_id", VInt 2)]]
    = Ok [[("_id", VInt 2)]; [("_id", VInt 1); ("a", VStr "x")]].
Proof.
  split; reflexivity.
Qed.

(** ** Stages [aggregate] does not know *)

Lemma run_pipeline_app : forall p1 p2 docs,
  run_pipeline (p1 ++ p2) docs =
  (docs' <- run_pipeline p1 docs ;; run_pipeline p2 docs').
Proof.
  induction p1 as [|stage p1 IH]; intros p2 docs; simpl; [reflexivity|].
  destruct (run_stage stage docs); simpl; auto.
Qed.

(** C5, as the code has it.  A stage with none of the keys [$unwind],
    [$group] and [$sort] is skipped without an error: the documents go
    through it unchanged, and the pipeline gives what it gives without that
    stage. *)
Theorem unknown_stage_is_skipped :
  forall (stage : dict),
    unknown_stage stage ->
    (forall docs, run_stage stage docs = Ok docs) /\
    (forall c p1 p2,
        aggregate c (p1 ++ stage :: p2) = aggregate c (p1 ++ p2)).
Proof.
  intros stage (Hu & Hg & Hs).
  assert (Hrun : forall docs, run_stage stage docs = Ok docs).
  { intros docs. unfold run_stage. now rewrite Hu, Hg, Hs. }
  split; [exact Hrun|].
  intros c p1 p2. unfold aggregate. rewrite !run_pipeline_app.
  destruct (run_pipeline p1 _) as [docs|e]; simpl; [|reflexivity].
  now rewrite Hrun.
Qed.

Lemma unknown_stage_is_skipped_witness :
  run_stage [("$match", VDict [("a", VInt 1)])] [[("_id", VInt 1)]]
    = Ok [[("_id", VInt 1)]].
Proof.
  apply (unknown_stage_is_skipped [("$match", VDict [("a", VInt 1)])]).
  repeat split.
Defined.

(** C5, as the specification states it, fails: a pipeline with the stage
    [{"$match": {"a": 1}}] returns the documents and raises nothing. *)
Lemma unknown_stage_raises_nothing :
  ~ (forall (c : InMemoryCollection) (pipeline : list dict),
       (exists stage, In stage pipeline /\ unknown_stage stage) ->
       exists e, aggregate c pipeline = Raise e).
Proof.
  intros H.
  destruct (H partly_keyed_collection [[("$match", VDict [("a", VInt 1)])]])
    as [e He].
  - eexists. split; [left; reflexivity|repeat split].
  - discriminate He.
Qed.

(** ** [$unwind] *)

Lemma resolve_none : forall parts, resolve VNone parts = VNone.
Proof. now destruct parts. Qed.

(** [resolve], the walk of [_matches], gives [None] for an absent path. *)
Lemma resolve_lookup : forall parts v,
  resolve v parts =
  match lookup_path v parts with
  | Some w => w
  | None => VNone
  end.
Proof.
  induction parts as [|p rest IH]; intros v; simpl; [reflexivity|].
  destruct v; try reflexivity.
  unfold dict_get. destruct (dict_find p d); [apply IH|apply resolve_none].
Qed.

Lemma unwind_value_empty : forall parts, unwind_value (VList []) parts = VList [].
Proof. induction parts; simpl; auto. Qed.

(** The walk of [$unwind] gives an empty list for an absent path. *)
Lemma unwind_value_lookup : forall parts v,
  unwind_value v parts =
  match lookup_path v parts with
  | Some w => w
  | None => VList []
  end.
Proof.
  induction parts as [|p rest IH]; intros v; simpl; [reflexivity|].
  destruct v; try apply unwind_value_empty.
  unfold dict_get. destruct (dict_find p d); [apply IH|apply unwind_value_empty].
Qed.

Lemma set_nested_step : forall d p q rest v,
  set_nested d (p :: q :: rest) v =
  match dict_find p d with
  | Some (VDict obj) =>
      obj' <- set_nested obj (q :: rest) v ;;
      Ok (dict_set d p (VDict obj'))
  | Some _ => Raise TypeError
  | None => Raise KeyError
  end.
Proof. reflexivity. Qed.

Lemma set_nested_lookup : forall parts d w v,
  parts <> [] ->
  lookup_path (VDict d) parts = Some w ->
  exists d', set_nested d parts v = Ok d' /\
             lookup_path (VDict d') parts = Some v.
Proof.
  induction parts as [|p rest IH]; intros d w v Hne Hl; [now elim Hne|].
  destruct rest as [|q rest].
  - exists (dict_set d p v). split; [reflexivity|].
    simpl. now rewrite dict_find_set_same.
  - rewrite set_nested_step.
    change (lookup_path (VDict d) (p :: q :: rest))
      with (match dict_find p d with
            | Some x => lookup_path x (q :: rest)
            | None => None
            end) in Hl.
    destruct (dict_find p d) as [x|] eqn:Hp; [|discriminate].
    destruct x as [ | | | | |obj]; try discriminate.
    destruct (IH obj w v ltac:(discriminate) Hl) as (obj' & Hs & Hl').
    rewrite Hs. cbn [bind]. eexists. split; [reflexivity|].
    change (lookup_path (VDict (dict_set d p (VDict obj'))) (p :: q :: rest))
      with (match dict_find p (dict_set d p (VDict obj')) with
            | Some x => lookup_path x (q :: rest)
            | None => None
            end).
    rewrite dict_find_set_same. exact Hl'.
Qed.

Lemma unwind_items : forall parts doc w vs,
  parts <> [] ->
  lookup_path (VDict doc) parts = Some w ->
  exists outs,
    map_res (fun v => set_nested doc parts v) vs = Ok outs /\
    Forall2 (fun v out => lookup_path (VDict out) parts = Some v) vs outs.
Proof.
  intros parts doc w vs Hne Hl.
  induction vs as [|v vs (outs & Hm & Hf)]; simpl.
  - exists []. split; [reflexivity|constructor].
  - destruct (set_nested_lookup parts doc w v Hne Hl) as (d' & Hs & Hl').
    rewrite Hs, Hm. cbn [bind]. eexists. split; [reflexivity|].
    now constructor.
Qed.

(** C4, as the code has it.  For a document and the path of an [$unwind]
    stage: when the path leads to a list, the document gives one output per
    item, in order, each holding that item at the path; when the path leads
    to a value that is not a list, the document is emitted unchanged; when
    the path is absent (a key is missing or a segment goes through a value
    that is not a dict), the document is dropped. *)
Theorem unwind_doc_cases : forall (path : string) (doc : dict),
  let parts := split_dot (lstrip_dollar path) in
  match lookup_path (VDict doc) parts with
  | Some (VList vs) =>
      exists outs,
        unwind_doc parts doc = Ok outs /\
        Forall2 (fun v out => lookup_path (VDict out) parts = Some v) vs outs
  | Some _ => unwind_doc parts doc = Ok [doc]
  | None => unwind_doc parts doc = Ok []
  end.
Proof.
  intros path doc parts. unfold unwind_doc.
  rewrite unwind_value_lookup, deepcopy_dict_id.
  destruct (lookup_path (VDict doc) parts) as [w|] eqn:Hl; [|reflexivity].
  destruct w; try reflexivity.
  apply (unwind_items parts doc (VList l)); [apply split_dot_not_nil|exact Hl].
Qed.

(** C4, as the specification states it, fails: the document [{"_id": 2}] has
    no ["days"], the value resolved there is not a list, and [$unwind] of
    ["$days"] emits nothing for it. *)
Lemma unwind_drops_absent_path :
  ~ (forall (path : string) (doc : dict),
       let parts := split_dot (lstrip_dollar path) in
       isinstance_list (resolve (VDict doc) parts) = false ->
       unwind_doc parts doc = Ok [doc]).
Proof.
  intros H. specialize (H "$days" [("_id", VInt 2)] eq_refl).
  discriminate H.
Qed.

(** ** [init_database] *)

(** C8.  From the two empty collections, [init_database] returns a state
    with 12 activities and 3 teachers, and [init_database] on that state
    returns the same state: a collection that holds a document counts more
    than zero and is not seeded. *)
Theorem init_database_idempotent : forall (hash_password : string -> string),
  (exists s1,
     init_database hash_password empty_store = (s1, Ok tt) /\
     init_database hash_password s1 = (s1, Ok tt) /\
     count_documents (activities_collection s1) [] = Ok 12%nat /\
     count_documents (teachers_collection s1) [] = Ok 3%nat) /\
  (forall e rest seed,
     init_collection (mkCollection (e :: rest)) seed
       = (mkCollection (e :: rest), Ok tt)).
Proof.
  intros hash_password. split.
  - eexists. split; [reflexivity|]. repeat split.
  - reflexivity.
Qed.

(** ** [$sort]: a stable sort per key, the first key deciding *)

(** *** Sorted lists *)

Lemma StronglySorted_app : forall (A : Type) (R : A -> A -> Prop) l1 l2,
  StronglySorted R l1 ->
  StronglySorted R l2 ->
  (forall a b, In a l1 -> In b l2 -> R a b) ->
  StronglySorted R (l1 ++ l2).
Proof.
  intros A R l1 l2 H1 H2 H12. induction H1 as [|a l1 Hs IH Hf]; simpl; auto.
  constructor.
  - apply IH. intros x y Hx Hy. apply H12; simpl; auto.
  - apply Forall_app. split; [exact Hf|].
    apply Forall_forall. intros b Hb. apply H12; simpl; auto.
Qed.

Lemma StronglySorted_rev : forall (A : Type) (R : A -> A -> Prop) l,
  StronglySorted R l -> StronglySorted (fun x y => R y x) (rev l).
Proof.
  intros A R l H. induction H as [|a l Hs IH Hf]; simpl; [constructor|].
  apply StronglySorted_app; auto.
  - repeat constructor.
  - intros x y Hx [Hy|[]]. subst y.
    rewrite Forall_forall in Hf. apply Hf. now apply in_rev.
Qed.

Lemma StronglySorted_weaken : forall (A : Type) (R R' : A -> A -> Prop) l,
  StronglySorted R l ->
  (forall x y, In x l -> In y l -> R x y -> R' x y) ->
  StronglySorted R' l.
Proof.
  intros A R R' l H. induction H as [|a l Hs IH Hf]; intros Hw; constructor.
  - apply IH. intros x y Hx Hy. apply Hw; simpl; auto.
  - rewrite Forall_forall in *. intros y Hy. apply Hw; simpl; auto.
Qed.

Lemma filter_andb : forall (A : Type) (p q : A -> bool) l,
  filter (fun x => p x && q x) l = filter p (filter q l).
Proof.
  intros A p q. induction l as [|x l IH]; simpl; [reflexivity|].
  destruct (q x); simpl; rewrite ?andb_true_r, ?andb_false_r.
  - destruct (p x); now rewrite IH.
  - exact IH.
Qed.

(** *** The insertion sort without exceptions

    When [<] on the keys of a list never raises and is given by a strict weak
    order [lt], [stable_sort] returns the list [isort] computes. *)

Section StableSort.

Variable A : Type.
Variable key : A -> pyval.
Variable lt : A -> A -> bool.

Hypothesis lt_irrefl : forall x, lt x x = false.
Hypothesis lt_trans : forall x y z,
  lt x y = true -> lt y z = true -> lt x z = true.
Hypothesis le_trans : forall x y z,
  lt y x = false -> lt z y = false -> lt z x = false.

Lemma insert_perm : forall x l, Permutation (x :: l) (insert lt x l).
Proof.
  intros x. induction l as [|y l IH]; simpl; [reflexivity|].
  destruct (lt y x); [|reflexivity].
  rewrite perm_swap. now constructor.
Qed.

Lemma isort_perm : forall l, Permutation l (isort lt l).
Proof.
  induction l as [|x l IH]; simpl; [constructor|].
  rewrite <- insert_perm. now constructor.
Qed.

Lemma sort_insert_pure : forall x l,
  (forall y, In y l -> py_lt (key y) (key x) = Ok (lt y x)) ->
  sort_insert key x l = Ok (insert lt x l).
Proof.
  intros x. induction l as [|y l IH]; intros H; simpl; [reflexivity|].
  rewrite (H y (or_introl eq_refl)). cbn [bind].
  destruct (lt y x); [|reflexivity].
  rewrite IH; [reflexivity|]. intros z Hz. apply H. now right.
Qed.

Lemma stable_sort_pure : forall l,
  (forall x y, In x l -> In y l -> py_lt (key x) (key y) = Ok (lt x y)) ->
  stable_sort key l = Ok (isort lt l).
Proof.
  induction l as [|x l IH]; intros H; simpl; [reflexivity|].
  rewrite IH by (intros; apply H; simpl; auto). cbn [bind].
  apply sort_insert_pure. intros y Hy.
  apply H; simpl; auto. right.
  apply Permutation_in with (l := isort lt l); [|exact Hy].
  symmetry. apply isort_perm.
Qed.

Lemma lt_asym : forall x y, lt x y = true -> lt y x = false.
Proof.
  intros x y H. destruct (lt y x) eqn:E; [|reflexivity].
  rewrite <- (lt_irrefl x). symmetry. now apply lt_trans with y.
Qed.

Lemma insert_lex : forall (Q : A -> A -> Prop) x l,
  StronglySorted (lex lt Q) l ->
  Forall (Q x) l ->
  StronglySorted (lex lt Q) (insert lt x l).
Proof.
  intros Q x l Hs. induction Hs as [|y l Hs IH Hy]; intros HQ; simpl.
  - repeat constructor.
  - inversion HQ as [|? ? Qy Ql]; subst.
    destruct (lt y x) eqn:Eyx.
    + constructor; [now apply IH|].
      apply Forall_forall. intros z Hz.
      apply Permutation_in with (l' := x :: l) in Hz;
        [|symmetry; apply insert_perm].
      destruct Hz as [<-|Hz]; [now left|].
      rewrite Forall_forall in Hy. now apply Hy.
    + constructor; [now constructor|].
      constructor.
      * destruct (lt x y) eqn:Exy; [now left|right; auto].
      * rewrite Forall_forall in *. intros z Hz.
        assert (Hzy : lt z y = false).
        { destruct (Hy z Hz) as [H|(_ & H & _)]; [now apply lt_asym|exact H]. }
        assert (Hzx : lt z x = false) by now apply le_trans with y.
        destruct (lt x z) eqn:Exz; [now left|right; auto].
Qed.

Lemma isort_lex : forall (Q : A -> A -> Prop) l,
  StronglySorted Q l -> StronglySorted (lex lt Q) (isort lt l).
Proof.
  intros Q l H. induction H as [|x l Hs IH Hx]; simpl; [constructor|].
  apply insert_lex; [exact IH|].
  rewrite Forall_forall in *. intros y Hy. apply Hx.
  apply Permutation_in with (l := isort lt l); [|exact Hy].
  symmetry. apply isort_perm.
Qed.

Lemma insert_filter : forall (P : A -> bool) x l,
  (forall y, In y l -> P x = true -> P y = true -> lt y x = false) ->
  filter P (insert lt x l) = if P x then x :: filter P l else filter P l.
Proof.
  intros P x. induction l as [|y l IH]; intros H; simpl; [reflexivity|].
  destruct (lt y x) eqn:Eyx; simpl.
  - rewrite IH by (intros; apply H; simpl; auto).
    destruct (P y) eqn:Py; [|reflexivity].
    destruct (P x) eqn:Px; [|reflexivity].
    rewrite H in Eyx; simpl; auto. discriminate.
  - reflexivity.
Qed.

(** Stability: items among which no one is smaller than another keep their
    order. *)
Lemma isort_filter : forall (P : A -> bool) l,
  (forall y z, In y l -> In z l -> P y = true -> P z = true -> lt y z = false) ->
  filter P (isort lt l) = filter P l.
Proof.
  intros P. induction l as [|x l IH]; intros H; simpl; [reflexivity|].
  rewrite insert_filter.
  - rewrite IH by (intros; apply H; simpl; auto). reflexivity.
  - intros y Hy Px Py. apply H; simpl; auto. right.
    apply Permutation_in with (l := isort lt l); [|exact Hy].
    symmetry. apply isort_perm.
Qed.

End StableSort.

(** *** The order within one kind of key *)

Lemma py_lt_kind : forall kd a b,
  has_kind kd a = true -> has_kind kd b = true ->
  py_lt a b = Ok (kind_lt kd a b).
Proof.
  intros [] a b Ha Hb; destruct a; try discriminate; destruct b;
    try discriminate; reflexivity.
Qed.

Lemma py_lt_kind_left : forall kd a b r,
  has_kind kd b = true -> py_lt a b = Ok r -> has_kind kd a = true.
Proof.
  intros [] a b r Hb H; destruct b; try discriminate; destruct a;
    try discriminate; reflexivity.
Qed.

Lemma ascii_compare_refl : forall c, Ascii.compare c c = Eq.
Proof. intros c. unfold Ascii.compare. apply N.compare_refl. Qed.

Lemma ascii_compare_lt_trans : forall a b c,
  Ascii.compare a b = Lt -> Ascii.compare b c = Lt -> Ascii.compare a c = Lt.
Proof.
  unfold Ascii.compare. intros a b c. rewrite !N.compare_lt_iff. lia.
Qed.

Lemma string_compare_refl : forall s, String.compare s s = Eq.
Proof.
  induction s as [|c s IH]; simpl; [reflexivity|].
  now rewrite ascii_compare_refl.
Qed.

Lemma string_compare_lt_trans : forall a b c,
  String.compare a b = Lt -> String.compare b c = Lt -> String.compare a c = Lt.
Proof.
  induction a as [|x a IH]; intros [|y b] [|z c]; simpl; try discriminate; auto.
  destruct (Ascii.compare x y) eqn:Exy; try discriminate;
    destruct (Ascii.compare y z) eqn:Eyz; try discriminate; intros Hab Hbc.
  - apply Ascii.compare_eq_iff in Exy, Eyz. subst.
    rewrite ascii_compare_refl. now apply IH with b.
  - apply Ascii.compare_eq_iff in Exy. subst. now rewrite Eyz.
  - apply Ascii.compare_eq_iff in Eyz. subst. now rewrite Exy.
  - now rewrite (ascii_compare_lt_trans x y z).
Qed.

Lemma string_ltb_irrefl : forall s, String.ltb s s = false.
Proof. intros s. unfold String.ltb. now rewrite string_compare_refl. Qed.

Lemma string_ltb_trans : forall a b c,
  String.ltb a b = true -> String.ltb b c = true -> String.ltb a c = true.
Proof.
  unfold String.ltb. intros a b c Hab Hbc.
  destruct (String.compare a b) eqn:Eab; try discriminate.
  destruct (String.compare b c) eqn:Ebc; try discriminate.
  now rewrite (string_compare_lt_trans a b c).
Qed.

Lemma string_leb_trans : forall a b c,
  String.ltb b a = false -> String.ltb c b = false -> String.ltb c a = false.
Proof.
  unfold String.ltb. intros a b c Hba Hcb.
  destruct (String.compare c a) eqn:Eca; try reflexivity.
  rewrite String.compare_antisym in Hba, Hcb.
  destruct (String.compare a b) eqn:Eab; try discriminate;
    destruct (String.compare b c) eqn:Ebc; try discriminate.
  - apply String.compare_eq_iff in Eab, Ebc. subst.
    now rewrite string_compare_refl in Eca.
  - apply String.compare_eq_iff in Eab. subst.
    rewrite String.compare_antisym, Ebc in Eca. discriminate.
  - apply String.compare_eq_iff in Ebc. subst.
    rewrite String.compare_antisym, Eab in Eca. discriminate.
  - rewrite String.compare_antisym,
      (string_compare_lt_trans a b c Eab Ebc) in Eca. discriminate.
Qed.

Lemma kind_lt_irrefl : forall kd a, kind_lt kd a a = false.
Proof.
  intros [] a; simpl; [apply Z.ltb_irrefl|apply string_ltb_irrefl].
Qed.

Lemma kind_lt_trans : forall kd a b c,
  kind_lt kd a b = true -> kind_lt kd b c = true -> kind_lt kd a c = true.
Proof.
  intros [] a b c; simpl.
  - rewrite !Z.ltb_lt. lia.
  - apply string_ltb_trans.
Qed.

Lemma kind_le_trans : forall kd a b c,
  kind_lt kd b a = false -> kind_lt kd c b = false -> kind_lt kd c a = false.
Proof.
  intros [] a b c; simpl.
  - rewrite !Z.ltb_ge. lia.
  - apply string_leb_trans.
Qed.

(** *** One pass of [$sort] *)

Lemma key_tied_kind : forall kd k x y,
  has_kind kd (sort_key k x) = true ->
  has_kind kd (sort_key k y) = true ->
  key_tied k x y =
  negb (kind_lt kd (sort_key k x) (sort_key k y)) &&
  negb (kind_lt kd (sort_key k y) (sort_key k x)).
Proof.
  intros kd k x y Hx Hy. unfold key_tied.
  rewrite (py_lt_kind kd _ _ Hx Hy), (py_lt_kind kd _ _ Hy Hx).
  destruct (kind_lt kd (sort_key k x) (sort_key k y));
    destruct (kind_lt kd (sort_key k y) (sort_key k x)); reflexivity.
Qed.

Lemma key_tied_left : forall kd k x y,
  has_kind kd (sort_key k y) = true ->
  key_tied k x y = true ->
  has_kind kd (sort_key k x) = true.
Proof.
  intros kd k x y Hy H. unfold key_tied in H.
  destruct (py_lt (sort_key k x) (sort_key k y)) as [r|] eqn:E; [|discriminate].
  exact (py_lt_kind_left kd _ _ r Hy E).
Qed.

Lemma list_sort_pass :
  forall (k : string) (direction : pyval) (kd : kind)
         (Q : dict -> dict -> Prop) (docs : list dict),
    Forall (fun d => has_kind kd (sort_key k d) = true) docs ->
    StronglySorted Q docs ->
    exists r,
      list_sort (sort_key k) (py_eq direction (VInt (-1))) docs = Ok r /\
      Permutation docs r /\
      StronglySorted
        (fun x y => key_before k direction x y \/
                    (key_tied k x y = true /\ Q x y)) r /\
      (forall P : dict -> bool,
          (forall y z, In y docs -> In z docs ->
                       P y = true -> P z = true -> key_tied k y z = true) ->
          filter P r = filter P docs).
Proof.
  intros k direction kd Q docs Hk HQ.
  rewrite Forall_forall in Hk.
  set (lt := fun x y : dict => kind_lt kd (sort_key k x) (sort_key k y)).
  assert (Hirr : forall x, lt x x = false)
    by (intros; apply kind_lt_irrefl).
  assert (Htr : forall x y z, lt x y = true -> lt y z = true -> lt x z = true)
    by (intros x y z; apply kind_lt_trans).
  assert (Hle : forall x y z, lt y x = false -> lt z y = false -> lt z x = false)
    by (intros x y z; apply kind_le_trans).
  assert (Hagree : forall x y, In x docs -> In y docs ->
            py_lt (sort_key k x) (sort_key k y) = Ok (lt x y))
    by (intros x y Hx Hy; apply py_lt_kind; auto).
  assert (Htied : forall x y, In x docs -> In y docs ->
            lt x y = false -> lt y x = false -> key_tied k x y = true).
  { intros x y Hx Hy Hxy Hyx. rewrite (key_tied_kind kd) by auto.
    fold (lt x y). fold (lt y x). now rewrite Hxy, Hyx. }
  assert (Hstab : forall (P : dict -> bool) l,
            (forall y, In y l -> In y docs) ->
            (forall y z, In y docs -> In z docs ->
                         P y = true -> P z = true -> key_tied k y z = true) ->
            filter P (isort lt l) = filter P l).
  { intros P l Hl HP. apply isort_filter; auto.
    intros y z Hy Hz Py Pz.
    specialize (HP y z (Hl y Hy) (Hl z Hz) Py Pz).
    rewrite (key_tied_kind kd) in HP by auto.
    fold (lt y z) in HP. now destruct (lt y z). }
  unfold list_sort, key_before.
  destruct (py_eq direction (VInt (-1))).
  - (* reverse=True *)
    assert (Hin : forall y, In y (rev docs) -> In y docs)
      by (intros y; apply in_rev).
    rewrite (stable_sort_pure dict (sort_key k) lt)
      by (intros; apply Hagree; auto).
    cbn [bind]. eexists. split; [reflexivity|].
    assert (Hperm : Permutation docs (rev (isort lt (rev docs)))).
    { rewrite <- Permutation_rev, <- isort_perm. apply Permutation_rev. }
    split; [exact Hperm|]. split.
    + apply StronglySorted_weaken
        with (R := fun x y => lex lt (fun a b => Q b a) y x).
      * apply StronglySorted_rev. apply isort_lex; auto.
        now apply StronglySorted_rev.
      * intros x y Hx Hy [H|(H1 & H2 & H3)].
        -- left. rewrite Hagree; [now rewrite H| |];
             eapply Permutation_in; try eassumption; now symmetry.
        -- right. split; [|exact H3].
           apply Htied; auto;
             eapply Permutation_in; try eassumption; now symmetry.
    + intros P HP. rewrite filter_rev, Hstab, filter_rev, rev_involutive; auto.
  - (* reverse=False *)
    rewrite (stable_sort_pure dict (sort_key k) lt)
      by (intros; apply Hagree; auto).
    eexists. split; [reflexivity|].
    assert (Hperm : Permutation docs (isort lt docs)) by apply isort_perm.
    split; [exact Hperm|]. split.
    + apply StronglySorted_weaken with (R := lex lt Q).
      * apply isort_lex; auto.
      * intros x y Hx Hy [H|(H1 & H2 & H3)].
        -- left. rewrite Hagree; [now rewrite H| |];
             eapply Permutation_in; try eassumption; now symmetry.
        -- right. split; [|exact H3].
           apply Htied; auto;
             eapply Permutation_in; try eassumption; now symmetry.
    + intros P HP. apply Hstab; auto.
Qed.

(** *** The whole [$sort] stage *)

Lemma sort_passes_app : forall p1 p2 docs,
  sort_passes (p1 ++ p2)%list docs =
  (docs' <- sort_passes p1 docs ;; sort_passes p2 docs').
Proof.
  induction p1 as [|[k direction] p1 IH]; intros p2 docs; simpl;
    [reflexivity|].
  destruct (list_sort _ _ docs); simpl; auto.
Qed.

(** The first declared key is the last pass. *)
Lemma sort_stage_cons : forall k direction sort_spec docs,
  sort_stage ((k, direction) :: sort_spec) docs =
  (docs' <- sort_stage sort_spec docs ;;
   list_sort (sort_key k) (py_eq direction (VInt (-1))) docs').
Proof.
  intros k direction sort_spec docs. unfold sort_stage. simpl rev.
  rewrite sort_passes_app.
  destruct (sort_passes (rev sort_spec) docs) as [docs'|e]; simpl;
    [|reflexivity].
  now destruct (list_sort _ _ docs').
Qed.

Lemma StronglySorted_True : forall (A : Type) (l : list A),
  StronglySorted (fun _ _ => True) l.
Proof.
  induction l; constructor; auto. apply Forall_forall. auto.
Qed.

Lemma sort_stage_sorted : forall (sort_spec : dict) (docs : list dict),
  (forall k direction, In (k, direction) sort_spec -> homogeneous k docs) ->
  exists sorted,
    sort_stage sort_spec docs = Ok sorted /\
    Permutation docs sorted /\
    StronglySorted (sort_order sort_spec) sorted /\
    (forall x, filter (all_tied sort_spec x) sorted
               = filter (all_tied sort_spec x) docs).
Proof.
  induction sort_spec as [|[k direction] rest IH]; intros docs Hh.
  - exists docs. repeat split; auto. apply StronglySorted_True.
  - destruct (IH docs) as (s & Hs & Hp & Hss & Hst).
    { intros k' d' Hin. apply (Hh k' d'). now right. }
    destruct (Hh k direction (or_introl eq_refl)) as [kd Hkd].
    assert (Hkd' : Forall (fun d => has_kind kd (sort_key k d) = true) s)
      by (eapply Permutation_Forall; eassumption).
    destruct (list_sort_pass k direction kd (sort_order rest) s Hkd' Hss)
      as (r & Hr & Hpr & Hsr & Hstr).
    exists r. rewrite sort_stage_cons, Hs. cbn [bind].
    split; [exact Hr|]. split; [now transitivity s|]. split; [exact Hsr|].
    intros x.
    rewrite Forall_forall in Hkd'.
    rewrite Hstr.
    + transitivity (filter (fun y => key_tied k x y && all_tied rest x y) s);
        [reflexivity|].
      rewrite filter_andb, Hst, <- filter_andb. reflexivity.
    + intros y z Hy Hz Py Pz.
      apply andb_prop in Py, Pz. destruct Py as [Py _], Pz as [Pz _].
      cbn [fst] in Py, Pz.
      assert (Hx : has_kind kd (sort_key k x) = true)
        by (apply (key_tied_left kd k x y); auto).
      rewrite (key_tied_kind kd) in Py, Pz |- * by auto.
      apply andb_prop in Py, Pz.
      destruct Py as [Pxy Pyx], Pz as [Pxz Pzx].
      apply negb_true_iff in Pxy, Pyx, Pxz, Pzx.
      rewrite (kind_le_trans kd _ _ _ Pxz Pyx).
      rewrite (kind_le_trans kd _ _ _ Pxy Pzx).
      reflexivity.
Qed.

(** *** The same for any keys that compare *)

Lemma homogeneous_comparable : forall k docs,
  homogeneous k docs -> comparable k docs.
Proof.
  intros k docs [kd Hkd]. rewrite Forall_forall in Hkd.
  exists (kind_lt kd). split; [apply kind_lt_irrefl|].
  split; [apply kind_lt_trans|]. split; [apply kind_le_trans|].
  intros x y Hx Hy. apply py_lt_kind; auto.
Qed.

Lemma list_sort_pass_lt :
  forall (k : string) (direction : pyval) (lt : pyval -> pyval -> bool)
         (Q : dict -> dict -> Prop) (docs : list dict),
    (forall a, lt a a = false) ->
    (forall a b c, lt a b = true -> lt b c = true -> lt a c = true) ->
    (forall a b c, lt b a = false -> lt c b = false -> lt c a = false) ->
    (forall x y, In x docs -> In y docs ->
       py_lt (sort_key k x) (sort_key k y)
       = Ok (lt (sort_key k x) (sort_key k y))) ->
    StronglySorted Q docs ->
    exists r,
      list_sort (sort_key k) (py_eq direction (VInt (-1))) docs = Ok r /\
      Permutation docs r /\
      StronglySorted
        (fun x y => key_before k direction x y \/
                    (key_tied k x y = true /\ Q x y)) r /\
      (forall P : dict -> bool,
          (forall y z, In y docs -> In z docs ->
                       P y = true -> P z = true -> key_tied k y z = true) ->
          filter P r = filter P docs).
Proof.
  intros k direction lt Q docs Hi Ht Hl Ha HQ.
  set (ltd := fun x y : dict => lt (sort_key k x) (sort_key k y)).
  assert (Hirr : forall x, ltd x x = false) by (intros; apply Hi).
  assert (Htr : forall x y z,
            ltd x y = true -> ltd y z = true -> ltd x z = true)
    by (intros x y z; apply Ht).
  assert (Hle : forall x y z,
            ltd y x = false -> ltd z y = false -> ltd z x = false)
    by (intros x y z; apply Hl).
  assert (Hagree : forall x y, In x docs -> In y docs ->
            py_lt (sort_key k x) (sort_key k y) = Ok (ltd x y))
    by exact Ha.
  assert (Htied : forall x y, In x docs -> In y docs ->
            ltd x y = false -> ltd y x = false -> key_tied k x y = true).
  { intros x y Hx Hy Hxy Hyx. unfold key_tied.
    now rewrite (Hagree x y Hx Hy), (Hagree y x Hy Hx), Hxy, Hyx. }
  assert (Hstab : forall (P : dict -> bool) l,
            (forall y, In y l -> In y docs) ->
            (forall y z, In y docs -> In z docs ->
                         P y = true -> P z = true -> key_tied k y z = true) ->
            filter P (isort ltd l) = filter P l).
  { intros P l Hin HP. apply isort_filter; auto.
    intros y z Hy Hz Py Pz.
    specialize (HP y z (Hin y Hy) (Hin z Hz) Py Pz).
    unfold key_tied in HP.
    rewrite (Hagree y z (Hin y Hy) (Hin z Hz)) in HP.
    now destruct (ltd y z). }
  unfold list_sort, key_before.
  destruct (py_eq direction (VInt (-1))).
  - (* reverse=True *)
    assert (Hin : forall y, In y (rev docs) -> In y docs)
      by (intros y; apply in_rev).
    rewrite (stable_sort_pure dict (sort_key k) ltd)
      by (intros; apply Hagree; auto).
    cbn [bind]. eexists. split; [reflexivity|].
    assert (Hperm : Permutation docs (rev (isort ltd (rev docs)))).
    { rewrite <- Permutation_rev, <- isort_perm. apply Permutation_rev. }
    split; [exact Hperm|]. split.
    + apply StronglySorted_weaken
        with (R := fun x y => lex ltd (fun a b => Q b a) y x).
      * apply StronglySorted_rev. apply isort_lex; auto.
        now apply StronglySorted_rev.
      * intros x y Hx Hy [H|(H1 & H2 & H3)].
        -- left. rewrite Hagree; [now rewrite H| |];
             eapply Permutation_in; try eassumption; now symmetry.
        -- right. split; [|exact H3].
           apply Htied; auto;
             eapply Permutation_in; try eassumption; now symmetry.
    + intros P HP. rewrite filter_rev, Hstab, filter_rev, rev_involutive; auto.
  - (* reverse=False *)
    rewrite (stable_sort_pure dict (sort_key k) ltd)
      by (intros; apply Hagree; auto).
    eexists. split; [reflexivity|].
    assert (Hperm : Permutation docs (isort ltd docs)) by apply isort_perm.
    split; [exact Hperm|]. split.
    + apply StronglySorted_weaken with (R := lex ltd Q).
      * apply isort_lex; auto.
      * intros x y Hx Hy [H|(H1 & H2 & H3)].
        -- left. rewrite Hagree; [now rewrite H| |];
             eapply Permutation_in; try eassumption; now symmetry.
        -- right. split; [|exact H3].
           apply Htied; auto;
             eapply Permutation_in; try eassumption; now symmetry.
    + intros P HP. apply Hstab; auto.
Qed.

Lemma sort_stage_sorted_comparable :
  forall (sort_spec : dict) (docs : list dict),
    (forall k direction, In (k, direction) sort_spec -> comparable k docs) ->
    exists sorted,
      sort_stage sort_spec docs = Ok sorted /\
      Permutation docs sorted /\
      StronglySorted (sort_order sort_spec) sorted /\
      (forall x, In x docs ->
                 filter (all_tied sort_spec x) sorted
                 = filter (all_tied sort_spec x) docs).
Proof.
  induction sort_spec as [|[k direction] rest IH]; intros docs Hh.
  - exists docs. repeat split; auto. apply StronglySorted_True.
  - destruct (IH docs) as (s & Hs & Hp & Hss & Hst).
    { intros k' d' Hin. apply (Hh k' d'). now right. }
    destruct (Hh k direction (or_introl eq_refl)) as (lt & Hi & Ht & Hl & Ha).
    assert (Hback : forall y, In y s -> In y docs)
      by (intros y Hy; eapply Permutation_in; [symmetry|]; eassumption).
    assert (Ha' : forall x y, In x s -> In y s ->
              py_lt (sort_key k x) (sort_key k y)
              = Ok (lt (sort_key k x) (sort_key k y)))
      by (intros x y Hx Hy; apply Ha; auto).
    destruct (list_sort_pass_lt k direction lt (sort_order rest) s
                Hi Ht Hl Ha' Hss)
      as (r & Hr & Hpr & Hsr & Hstr).
    exists r. rewrite sort_stage_cons, Hs. cbn [bind].
    split; [exact Hr|]. split; [now transitivity s|]. split; [exact Hsr|].
    intros x Hx.
    rewrite Hstr.
    + transitivity (filter (fun y => key_tied k x y && all_tied rest x y) s);
        [reflexivity|].
      rewrite filter_andb, (Hst x Hx), <- filter_andb. reflexivity.
    + intros y z Hy Hz Py Pz.
      apply andb_prop in Py, Pz. destruct Py as [Py _], Pz as [Pz _].
      cbn [fst] in Py, Pz. unfold key_tied in *.
      rewrite (Ha x y Hx (Hback y Hy)), (Ha y x (Hback y Hy) Hx) in Py.
      rewrite (Ha x z Hx (Hback z Hz)), (Ha z x (Hback z Hz) Hx) in Pz.
      rewrite (Ha y z (Hback y Hy) (Hback z Hz)),
              (Ha z y (Hback z Hz) (Hback y Hy)).
      destruct (lt (sort_key k x) (sort_key k y)) eqn:E1; [discriminate|].
      destruct (lt (sort_key k y) (sort_key k x)) eqn:E2; [discriminate|].
      destruct (lt (sort_key k x) (sort_key k z)) eqn:E3; [discriminate|].
      destruct (lt (sort_key k z) (sort_key k x)) eqn:E4; [discriminate|].
      now rewrite (Hl _ _ _ E3 E2), (Hl _ _ _ E1 E4).
Qed.

(** Keys that are lists compare as well: the values [[2]] and [[1]] at the
    key ["a"] are within [comparable]. *)
Lemma comparable_list_keys :
  comparable "a" [[("_id", VInt 1); ("a", VList [VInt 2])];
                  [("_id", VInt 2); ("a", VList [VInt 1])]].
Proof.
  exists (fun a b =>
            match a, b with
            | VList (x :: _), VList (y :: _) => number_of x <? number_of y
            | VList (x :: _), _ => number_of x <? 0
            | _, VList (y :: _) => 0 <? number_of y
            | _, _ => false
            end).
  split; [|split; [|split]].
  - intros [ | | | |[|x l]| ]; auto using Z.ltb_irrefl.
  - intros [ | | | |[|x l]| ] [ | | | |[|y l']| ] [ | | | |[|z l'']| ];
      rewrite ?Z.ltb_lt; try discriminate; lia.
  - intros [ | | | |[|x l]| ] [ | | | |[|y l']| ] [ | | | |[|z l'']| ];
      rewrite ?Z.ltb_ge; try discriminate; try reflexivity; lia.
  - intros x y [<-|[<-|[]]] [<-|[<-|[]]]; reflexivity.
Qed.

(** C6, as the code has it.  When [<] never raises between the values two
    documents hold at a key of the [$sort] specification and orders these
    values consistently (as it does when they are all numbers, or all
    strings), the stage returns the documents rearranged so that the first
    declared key decides the order, each later key breaking the ties of the
    ones before it, and the documents tied with a document at every key stay
    in their order of arrival (the passes run from the last key to the
    first, each a stable sort).  The documents [{"_id": 1, "a": 1, "b": 2}]
    and [{"_id": 2, "a": 1, "b": 1}] sorted by [{"a": 1, "b": 1}] come out
    in the order 2, 1. *)
Theorem sort_stage_stable_multi_key :
  (forall (sort_spec : dict) (docs : list dict),
     (forall k direction, In (k, direction) sort_spec -> comparable k docs) ->
     exists sorted,
       sort_stage sort_spec docs = Ok sorted /\
       Permutation docs sorted /\
       StronglySorted (sort_order sort_spec) sorted /\
       (forall x, In x docs ->
                  filter (all_tied sort_spec x) sorted
                  = filter (all_tied sort_spec x) docs)) /\
  aggregate two_key_collection
    [[("$sort", VDict [("a", VInt 1); ("b", VInt 1)])]]
  = Ok [[("_id", VInt 2); ("a", VInt 1); ("b", VInt 1)];
        [("_id", VInt 1); ("a", VInt 1); ("b", VInt 2)]].
Proof.
  split; [exact sort_stage_sorted_comparable|reflexivity].
Qed.

Lemma sort_stage_stable_multi_key_witness :
  exists sorted,
    sort_stage [("a", VInt 1); ("b", VInt (-1))]
      [[("_id", VInt 1); ("a", VInt 1); ("b", VInt 2)];
       [("_id", VInt 2); ("a", VInt 1); ("b", VInt 3)];
       [("_id", VInt 3); ("a", VInt 0); ("b", VInt 2)]] = Ok sorted /\
    Permutation
      [[("_id", VInt 1); ("a", VInt 1); ("b", VInt 2)];
       [("_id", VInt 2); ("a", VInt 1); ("b", VInt 3)];
       [("_id", VInt 3); ("a", VInt 0); ("b", VInt 2)]] sorted /\
    StronglySorted (sort_order [("a", VInt 1); ("b", VInt (-1))]) sorted /\
    (forall x,
        In x [[("_id", VInt 1); ("a", VInt 1); ("b", VInt 2)];
              [("_id", VInt 2); ("a", VInt 1); ("b", VInt 3)];
              [("_id", VInt 3); ("a", VInt 0); ("b", VInt 2)]] ->
        filter (all_tied [("a", VInt 1); ("b", VInt (-1))] x) sorted
        = filter (all_tied [("a", VInt 1); ("b", VInt (-1))] x)
            [[("_id", VInt 1); ("a", VInt 1); ("b", VInt 2)];
             [("_id", VInt 2); ("a", VInt 1); ("b", VInt 3)];
             [("_id", VInt 3); ("a", VInt 0); ("b", VInt 2)]]).
Proof.
  apply (proj1 sort_stage_stable_multi_key).
  intros k direction [H|[H|[]]]; inversion H; subst;
    apply homogeneous_comparable; exists Numbers; repeat constructor.
Defined.

(** C6, as the specification states it, fails: sorting
    [{"_id": 1, "a": 5}] and [{"_id": 2, "a": "x"}] by [{"a": 1}] compares
    ["x"] with [5] and raises [TypeError]; the stage has no result. *)
Lemma sort_stage_mixed_keys_raise :
  ~ (forall (sort_spec : dict) (docs : list dict),
       exists sorted,
         sort_stage sort_spec docs = Ok sorted /\
         Permutation docs sorted /\
         StronglySorted (sort_order sort_spec) sorted /\
         (forall x, In x docs ->
                    filter (all_tied sort_spec x) sorted
                    = filter (all_tied sort_spec x) docs)).
Proof.
  intros H.
  destruct (H [("a", VInt 1)]
              [[("_id", VInt 1); ("a", VInt 5)];
               [("_id", VInt 2); ("a", VStr "x")]]) as (sorted & Hs & _).
  discriminate Hs.
Qed.

(** * Further properties of the collection *)

(** ** Equality of hashable keys *)

Lemma b2z_eqb : forall x y, (Z.b2z x =? Z.b2z y) = Bool.eqb x y.
Proof. now intros [] []. Qed.

Lemma py_eq_scalar_sym : forall a b,
  hashable a = true -> hashable b = true -> py_eq a b = py_eq b a.
Proof.
  intros a b Ha Hb; destruct a; try discriminate; destruct b;
    try discriminate; simpl; try reflexivity.
  - now destruct b0, b.
  - apply Z.eqb_sym.
  - apply Z.eqb_sym.
  - apply Z.eqb_sym.
  - apply String.eqb_sym.
Qed.

Lemma py_eq_hashable_left : forall a k,
  hashable k = true -> py_eq a k = true -> hashable a = true.
Proof.
  intros a k Hk H; destruct a; try reflexivity; destruct k; discriminate.
Qed.

Lemma py_eq_scalar_trans : forall a b c,
  hashable a = true -> hashable b = true -> hashable c = true ->
  py_eq a b = true -> py_eq b c = true -> py_eq a c = true.
Proof.
  intros a b c Ha Hb Hc;
    destruct a as [|x|x|x|x|x]; try discriminate;
    destruct b as [|y|y|y|y|y]; try discriminate;
    destruct c as [|z|z|z|z|z]; try discriminate;
    simpl; try discriminate; try reflexivity;
    rewrite ?Z.eqb_eq, ?String.eqb_eq, ?Bool.eqb_true_iff;
    intros H1 H2; try congruence;
    repeat match goal with
           | v : bool |- _ => destruct v
           end; simpl in *; try congruence; try lia; exfalso; lia.
Qed.

Lemma store_set_length : forall (s : list (pyval * dict)) k v,
  length (store_set s k v) =
  match store_find k s with
  | Some _ => length s
  | None => S (length s)
  end.
Proof.
  induction s as [|[k' v'] s IH]; intros k v; simpl; [reflexivity|].
  destruct (py_eq k k'); simpl; [reflexivity|].
  rewrite IH. now destruct (store_find k s).
Qed.

(** ** [insert_one] and the reads *)

(** X1.  A document with a hashable [_id] other than [None] is inserted
    without an exception, and [find_one] with the filter [{"_id": _id}] then
    returns that document. *)
Theorem insert_then_find_one :
  forall (c : InMemoryCollection) (document : dict) (_id : pyval),
    dict_find "_id" document = Some _id ->
    _id <> VNone ->
    hashable _id = true ->
    exists c',
      insert_one c document = (c', Ok tt) /\
      find_one c' [("_id", _id)] = Ok (Some document).
Proof.
  intros c document _id Hd Hn Hh.
  assert (Hg : dict_get document "_id" VNone = _id)
    by (unfold dict_get; now rewrite Hd).
  unfold insert_one. rewrite deepcopy_dict_id, Hg, Hh.
  eexists. split; [reflexivity|].
  unfold find_one. cbn [dict_get dict_find String.eqb Ascii.eqb Bool.eqb length
                        Nat.eqb].
  change (dict_get [("_id", _id)] "_id" VNone) with _id.
  rewrite (is_none_false _ Hn), Hh. cbn [negb andb _docs].
  rewrite store_find_set_same by now apply hashable_py_eq_refl.
  destruct document as [|e document]; [discriminate|].
  now rewrite deepcopy_dict_id.
Qed.

Lemma insert_then_find_one_witness :
  exists c',
    insert_one empty_collection [("_id", VStr "a"); ("x", VInt 1)]
      = (c', Ok tt) /\
    find_one c' [("_id", VStr "a")]
      = Ok (Some [("_id", VStr "a"); ("x", VInt 1)]).
Proof.
  apply (insert_then_find_one empty_collection
           [("_id", VStr "a"); ("x", VInt 1)] (VStr "a"));
    [reflexivity|discriminate|reflexivity].
Defined.

(** X2.  [insert_one] of a document with a hashable [_id] (or none) adds one
    document to the count when no document is stored under that [_id], and
    leaves the count as it is when one is: the stored document is replaced
    without an error. *)
Theorem insert_one_count : forall (c : InMemoryCollection) (document : dict),
  hashable (dict_get document "_id" VNone) = true ->
  count_documents (fst (insert_one c document)) [] =
  Ok (match store_find (dict_get document "_id" VNone) (_docs c) with
      | Some _ => length (_docs c)
      | None => S (length (_docs c))
      end).
Proof.
  intros c document Hh. unfold insert_one. rewrite deepcopy_dict_id, Hh.
  cbn [fst count_documents _docs]. now rewrite store_set_length.
Qed.

Lemma insert_one_count_witness :
  count_documents (fst (insert_one one_doc_collection [("_id", VStr "a")])) []
  = Ok 1%nat.
Proof.
  apply (insert_one_count one_doc_collection [("_id", VStr "a")]).
  reflexivity.
Defined.

(** ** [count_documents], [find] and [find_one] agree *)

Lemma count_matching_find_all : forall docs filter,
  count_matching docs filter =
  (l <- find_all docs filter ;; Ok (length l)).
Proof.
  induction docs as [|d docs IH]; intros filter; simpl; [reflexivity|].
  destruct (_matches d filter) as [b|e]; simpl; [|reflexivity].
  rewrite IH. destruct (find_all docs filter) as [l|e]; simpl; [|reflexivity].
  now destruct b.
Qed.

(** X3.  For every filter, [count_documents] returns the length of what
    [find] returns, and raises what [find] raises. *)
Theorem count_documents_is_length_of_find :
  forall (c : InMemoryCollection) (filter : dict),
    count_documents c filter =
    (l <- find c (Some filter) ;; Ok (length l)).
Proof.
  intros c [|e filter].
  - simpl. unfold values. now rewrite !length_map.
  - unfold count_documents, find. apply count_matching_find_all.
Qed.

Lemma find_all_filter : forall docs f l,
  find_all docs f = Ok l -> l = List.filter (matchesb f) docs.
Proof.
  induction docs as [|d docs IH]; intros f l H; simpl in *.
  - now inversion H.
  - unfold matchesb at 1.
    destruct (_matches d f) as [b|e]; simpl in H; [|discriminate].
    destruct (find_all docs f) as [l'|e] eqn:E; simpl in H; [|discriminate].
    inversion H; subst. rewrite deepcopy_dict_id.
    rewrite (IH f l' E). now destruct b.
Qed.

(** X4.  When [find] returns, it returns exactly the stored documents that
    match the filter, in the order of the collection. *)
Theorem find_returns_the_matching_documents :
  forall (c : InMemoryCollection) (filter : dict) (l : list dict),
    find c (Some filter) = Ok l ->
    l = List.filter (matchesb filter) (values c).
Proof.
  intros c [|e f] l H.
  - simpl in H. inversion H; subst.
    rewrite map_ext with (g := fun d => d) by apply deepcopy_dict_id.
    rewrite map_id. symmetry. apply forallb_filter_id.
    apply forallb_forall. reflexivity.
  - now apply find_all_filter.
Qed.

Lemma find_returns_the_matching_documents_witness :
  [[("_id", VInt 2); ("a", VInt 1); ("b", VInt 1)]]
  = List.filter (matchesb [("b", VInt 1)]) (values two_key_collection).
Proof.
  apply (find_returns_the_matching_documents two_key_collection
           [("b", VInt 1)]).
  reflexivity.
Defined.

Lemma scan_head_of_find_all : forall s filter l,
  find_all (map snd s) filter = Ok l ->
  (r <- scan s filter ;;
   Ok (match r with
       | Some (_, (_, doc), _) => Some (deepcopy_dict doc)
       | None => None
       end)) = Ok (hd_error l).
Proof.
  induction s as [|[k d] s IH]; intros f l H; simpl in *.
  - now inversion H.
  - destruct (_matches d f) as [b|e]; simpl in *; [|discriminate].
    destruct (find_all (map snd s) f) as [l'|e] eqn:E; simpl in H;
      [|discriminate].
    inversion H; subst. destruct b; simpl; [reflexivity|].
    specialize (IH f l' E).
    destruct (scan s f) as [[[[pre e] post]|]|e]; simpl in *;
      try discriminate; exact IH.
Qed.

(** X5.  When the filter is not an [_id]-only filter (it has no [_id], or
    [None] there, or more than one key) and [find] returns, [find_one]
    returns the first document of [find], or [None] when [find] returns no
    document. *)
Theorem find_one_is_first_of_find :
  forall (c : InMemoryCollection) (filter : dict) (l : list dict),
    dict_get filter "_id" VNone = VNone \/ length filter <> 1%nat ->
    find c (Some filter) = Ok l ->
    find_one c filter = Ok (hd_error l).
Proof.
  intros c f l Hscan H. unfold find_one.
  assert (Hb : negb (is_none (dict_get f "_id" VNone))
               && Nat.eqb (length f) 1 = false).
  { destruct Hscan as [->|Hlen]; [reflexivity|].
    apply Nat.eqb_neq in Hlen. rewrite Hlen. apply andb_false_r. }
  rewrite Hb. destruct f as [|e f].
  - simpl in H. inversion H; subst. unfold values.
    destruct (_docs c) as [|[k d] s]; reflexivity.
  - now apply scan_head_of_find_all.
Qed.

Lemma find_one_is_first_of_find_witness :
  find_one two_key_collection [("a", VInt 1)]
  = Ok (hd_error [[("_id", VInt 1); ("a", VInt 1); ("b", VInt 2)];
                  [("_id", VInt 2); ("a", VInt 1); ("b", VInt 1)]]).
Proof.
  apply (find_one_is_first_of_find two_key_collection [("a", VInt 1)]);
    [left; reflexivity|reflexivity].
Defined.

(** ** The direct lookup of [find_one] and the scan *)

Lemma py_eq_hashable_right : forall a k,
  hashable a = true -> py_eq a k = true -> hashable k = true.
Proof.
  intros a k Ha H; destruct k; try reflexivity; destruct a; discriminate.
Qed.

Lemma matchesb_id : forall doc _id,
  hashable _id = true ->
  matchesb [("_id", _id)] doc = py_eq (dict_get doc "_id" VNone) _id.
Proof.
  intros doc _id Hh. unfold matchesb, _matches.
  change (resolve (VDict doc) (split_dot "_id"))
    with (dict_get doc "_id" VNone).
  destruct _id; try discriminate; cbn [bind];
    now destruct (py_eq (dict_get doc "_id" VNone) _).
Qed.

Lemma lookup_is_first_match : forall (s : list (pyval * dict)) _id,
  (forall k doc, In (k, doc) s -> py_eq (dict_get doc "_id" VNone) k = true) ->
  (forall k doc, In (k, doc) s -> hashable k = true) ->
  hashable _id = true ->
  _id <> VNone ->
  match store_find _id s with
  | Some ((_ :: _) as doc) => Some (deepcopy_dict doc)
  | _ => None
  end = hd_error (List.filter (matchesb [("_id", _id)]) (map snd s)).
Proof.
  induction s as [|[k d] s IH]; intros _id Hkey Hhash Hh Hn; [reflexivity|].
  cbn [store_find map snd List.filter].
  rewrite (matchesb_id d _id Hh).
  pose proof (Hkey k d (or_introl eq_refl)) as Hk.
  pose proof (Hhash k d (or_introl eq_refl)) as Hhk.
  pose proof (py_eq_hashable_left _ _ Hhk Hk) as Hha.
  assert (Heq : py_eq _id k = py_eq (dict_get d "_id" VNone) _id).
  { destruct (py_eq _id k) eqn:E1;
      destruct (py_eq (dict_get d "_id" VNone) _id) eqn:E2; try reflexivity.
    - rewrite py_eq_scalar_sym in E1 by assumption.
      rewrite <- E2. symmetry.
      now apply py_eq_scalar_trans with k.
    - rewrite <- E1. apply py_eq_scalar_trans with (dict_get d "_id" VNone);
        try assumption.
      now rewrite py_eq_scalar_sym. }
  rewrite Heq. destruct (py_eq (dict_get d "_id" VNone) _id) eqn:E.
  - destruct d as [|e d].
    + destruct _id; try discriminate. now elim Hn.
    + cbn [hd_error]. now rewrite deepcopy_dict_id.
  - apply IH; auto; intros k' doc' Hin; [apply Hkey|apply Hhash with doc'];
      now right.
Qed.

(** X6.  On a collection whose documents are stored under their own [_id],
    [find_one] with the filter [{"_id": _id}], which looks the key up,
    returns the first stored document that matches that filter, as the scan
    of [find] does, or [None] when none matches. *)
Theorem find_one_lookup_agrees_with_scan :
  forall (c : InMemoryCollection) (_id : pyval),
    keyed_by_id c ->
    keys_hashable c ->
    hashable _id = true ->
    _id <> VNone ->
    find_one c [("_id", _id)] =
    Ok (hd_error (List.filter (matchesb [("_id", _id)]) (values c))).
Proof.
  intros c _id Hk Hh Hid Hn. unfold find_one.
  change (dict_get [("_id", _id)] "_id" VNone) with _id.
  rewrite (is_none_false _ Hn), Hid. cbn [negb andb length Nat.eqb].
  f_equal. now apply lookup_is_first_match.
Qed.

Lemma find_one_lookup_agrees_with_scan_witness :
  find_one two_key_collection [("_id", VInt 2)] =
  Ok (hd_error (List.filter (matchesb [("_id", VInt 2)])
                  (values two_key_collection))).
Proof.
  apply (find_one_lookup_agrees_with_scan two_key_collection (VInt 2)).
  - intros k doc [H|[H|[]]]; inversion H; reflexivity.
  - intros k doc [H|[H|[]]]; inversion H; reflexivity.
  - reflexivity.
  - discriminate.
Defined.

(** ** What [update_one] leaves alone *)

Lemma update_one_shape : forall c filter update,
  fst (update_one c filter update) = c \/
  exists pre k doc doc' post,
    _docs c = (pre ++ (k, doc) :: post)%list /\
    _docs (fst (update_one c filter update))
      = (pre ++ (k, doc') :: post)%list.
Proof.
  intros c filter update. unfold update_one.
  destruct (select c filter) as [[[[pre [k doc]] post]|]|] eqn:Hs;
    try (left; reflexivity).
  right. apply select_app in Hs.
  exists pre, k, doc, (fst (apply_update doc update)), post.
  split; [exact Hs|].
  now destruct (apply_update doc update) as [doc' [[]|e]].
Qed.


(** X8.  In every state reached from the empty collection by [insert_one]
    and by [update_one] with updates that do not name the field [_id], every
    key is hashable and every document is stored under its own [_id] (a
    document without [_id] under [None]). *)
Theorem reachable_sparing_id_keyed_by_id : forall (c : InMemoryCollection),
  reachable_sparing_id c -> keyed_by_id c /\ keys_hashable c.
Proof.
  intros c H.
  induction H as [|c document _ [IHk IHh]|c filter update _ [IHk IHh] Hu].
  - split; intros k doc [].
  - split; [now apply insert_one_keeps_keyed_by_id|].
    unfold insert_one. rewrite deepcopy_dict_id.
    destruct (hashable (dict_get document "_id" VNone)) eqn:Hh; [|exact IHh].
    intros k doc Hin. cbn [fst _docs] in Hin.
    destruct (store_set_in _ _ _ _ _ Hin) as [Hold|(_ & [->|Heq])].
    + now apply (IHh k doc).
    + exact Hh.
    + now apply (py_eq_hashable_right _ _ Hh Heq).
  - split; [now apply update_one_keeps_keyed_by_id|].
    intros k doc Hin.
    assert (Hk : In k (map fst (_docs c))).
    { destruct (update_one_shape c filter update)
        as [Heq|(pre & k0 & d0 & d0' & post & H1 & H2)].
      - rewrite Heq in Hin. now apply (in_map fst) in Hin.
      - rewrite H2 in Hin. rewrite H1. apply (in_map fst) in Hin.
        rewrite map_app in *. exact Hin. }
    apply in_map_iff in Hk. destruct Hk as ([k' d'] & <- & Hin').
    now apply (IHh k' d').
Qed.

Lemma reachable_sparing_id_keyed_by_id_witness :
  keyed_by_id one_doc_collection /\ keys_hashable one_doc_collection.
Proof.
  apply (reachable_sparing_id_keyed_by_id one_doc_collection).
  unfold one_doc_collection. apply sparing_insert. apply sparing_empty.
Defined.

(** ** Writes of [update_one] and the reads after them *)

Lemma dict_set_not_nil : forall d k v, dict_set d k v <> [].
Proof.
  destruct d as [|[k' v'] d]; intros k v; simpl; [discriminate|].
  destruct (String.eqb k k'); discriminate.
Qed.

Lemma dict_set_twice : forall d k v v',
  dict_set (dict_set d k v) k v' = dict_set d k v'.
Proof.
  induction d as [|[k0 v0] d IH]; intros k v v'; simpl.
  - now rewrite String.eqb_refl.
  - destruct (String.eqb k k0) eqn:E; simpl; rewrite E; [reflexivity|].
    now rewrite IH.
Qed.

Lemma dict_set_same : forall d k v,
  dict_find k d = Some v -> dict_set d k v = d.
Proof.
  induction d as [|[k0 v0] d IH]; intros k v H; simpl in *; [discriminate|].
  destruct (String.eqb k k0).
  - now inversion H.
  - now rewrite IH.
Qed.

Lemma store_split_replace :
  forall (k : pyval) (s pre post : list (pyval * dict)) k' v v',
    store_split k s = Some (pre, (k', v), post) ->
    store_split k (pre ++ (k', v') :: post) = Some (pre, (k', v'), post).
Proof.
  intros k s. induction s as [|[k0 v0] s IH]; intros pre post k' v v' H;
    simpl in H; [discriminate|].
  destruct (py_eq k k0) eqn:E.
  - inversion H; subst. simpl. now rewrite E.
  - destruct (store_split k s) as [[[pre0 e0] post0]|] eqn:Hs; [|discriminate].
    inversion H; subst. simpl. rewrite E.
    now rewrite (IH pre0 post k' v v' eq_refl).
Qed.

Lemma store_split_lookup :
  forall (k : pyval) (s pre post : list (pyval * dict)) k' v,
    store_split k s = Some (pre, (k', v), post) -> store_find k s = Some v.
Proof.
  intros k s. induction s as [|[k0 v0] s IH]; intros pre post k' v H;
    simpl in *; [discriminate|].
  destruct (py_eq k k0).
  - now inversion H.
  - destruct (store_split k s) as [[[pre0 e0] post0]|] eqn:Hs; [|discriminate].
    inversion H; subst. now apply (IH pre0 post k' v).
Qed.

Lemma apply_field_not_nil : forall doc op field value,
  doc <> [] -> fst (apply_field doc op field value) <> [].
Proof.
  intros doc op field value Hd. unfold apply_field.
  destruct (String.eqb op "$push").
  { destruct (dict_find field doc) as [[]|]; cbn [fst];
      auto using dict_set_not_nil. }
  destruct (String.eqb op "$pull").
  { destruct (dict_get doc field (VList [])) as [ | | | | lst | ];
      try (destruct (py_in value _) as [[|]|]; exact Hd).
    destruct (list_contains value lst); cbn [fst];
      auto using dict_set_not_nil. }
  destruct (String.eqb op "$set"); cbn [fst]; auto using dict_set_not_nil.
Qed.

Lemma apply_fields_not_nil : forall fields doc op,
  doc <> [] -> fst (apply_fields doc op fields) <> [].
Proof.
  induction fields as [|[field value] rest IH]; intros doc op Hd; simpl;
    [exact Hd|].
  pose proof (apply_field_not_nil doc op field value Hd) as Hk.
  destruct (apply_field doc op field value) as [doc' [[]|e]]; cbn [fst] in *.
  - now apply IH.
  - exact Hk.
Qed.

Lemma apply_update_not_nil : forall update doc,
  doc <> [] -> fst (apply_update doc update) <> [].
Proof.
  induction update as [|[op fields] rest IH]; intros doc Hd; simpl;
    [exact Hd|].
  destruct fields; try exact Hd.
  pose proof (apply_fields_not_nil d doc op Hd) as Hk.
  destruct (apply_fields doc op d) as [doc' [[]|e]]; cbn [fst] in *.
  - now apply IH.
  - exact Hk.
Qed.

(** X9.  What [update_one] writes is what [find_one] reads: when a document
    that is not empty is stored under a hashable [_id] other than [None] and
    the operators of the update apply to it without raising, [update_one]
    with the filter [{"_id": _id}] returns [modified_count] 1 and [find_one]
    with the same filter then returns the updated document. *)
Theorem update_one_then_find_one :
  forall (c : InMemoryCollection) (update : dict) (_id : pyval)
         (doc doc' : dict),
    hashable _id = true ->
    _id <> VNone ->
    store_find _id (_docs c) = Some doc ->
    doc <> [] ->
    apply_update doc update = (doc', Ok tt) ->
    exists c',
      update_one c [("_id", _id)] update = (c', Ok 1) /\
      find_one c' [("_id", _id)] = Ok (Some doc').
Proof.
  intros c update _id doc doc' Hh Hn Hf Hd Ha.
  destruct (store_split_find _ _ _ Hf) as (pre & k & post & Hs & Hk).
  unfold update_one.
  rewrite (select_by_id c [("_id", _id)] _id eq_refl Hn Hh), Hs, Ha.
  eexists. split; [reflexivity|].
  unfold find_one.
  change (dict_get [("_id", _id)] "_id" VNone) with _id.
  rewrite (is_none_false _ Hn), Hh. cbn [negb andb length Nat.eqb _docs].
  rewrite (store_split_lookup _ _ _ _ _ _
             (store_split_replace _ _ _ _ _ _ doc' Hs)).
  pose proof (apply_update_not_nil update doc Hd) as Hne.
  rewrite Ha in Hne. cbn [fst] in Hne.
  destruct doc' as [|e doc']; [now elim Hne|].
  now rewrite deepcopy_dict_id.
Qed.

Lemma update_one_then_find_one_witness :
  exists c',
    update_one one_doc_collection [("_id", VStr "a")]
      [("$set", VDict [("x", VInt 3)])] = (c', Ok 1) /\
    find_one c' [("_id", VStr "a")]
      = Ok (Some [("_id", VStr "a"); ("x", VInt 3)]).
Proof.
  apply (update_one_then_find_one one_doc_collection
           [("$set", VDict [("x", VInt 3)])] (VStr "a")
           [("_id", VStr "a"); ("x", VInt 1)]);
    [reflexivity|discriminate|reflexivity|discriminate|reflexivity].
Defined.

Lemma list_contains_app_last : forall value l,
  py_eq value value = true -> list_contains value (l ++ [value]) = true.
Proof.
  intros value l H. unfold list_contains. rewrite existsb_app. simpl.
  rewrite H. now rewrite orb_true_r.
Qed.

Lemma list_remove_app_last : forall value l,
  list_contains value l = false ->
  py_eq value value = true ->
  list_remove value (l ++ [value]) = l.
Proof.
  induction l as [|x l IH]; intros Hc Hv; simpl in *.
  - now rewrite Hv.
  - apply orb_false_iff in Hc. destruct Hc as [Hx Hl].
    rewrite Hx. now rewrite IH.
Qed.

(** X10.  [$push] of a value followed by [$pull] of the same value gives the
    collection back: when the selected document holds at [field] a list that
    does not contain the value (and the value equals itself), the first call
    appends it, the second removes it, both return [modified_count] 1, and
    the collection is the one before the two calls. *)
Theorem push_then_pull_restores :
  forall (c : InMemoryCollection) (filter : dict) (_id : pyval) (doc : dict)
         (field : string) (l : list pyval) (value : pyval),
    dict_find "_id" filter = Some _id ->
    _id <> VNone ->
    hashable _id = true ->
    store_find _id (_docs c) = Some doc ->
    dict_find field doc = Some (VList l) ->
    list_contains value l = false ->
    py_eq value value = true ->
    exists c1,
      update_one c filter [("$push", VDict [(field, value)])] = (c1, Ok 1) /\
      store_find _id (_docs c1)
        = Some (dict_set doc field (VList (l ++ [value]))) /\
      update_one c1 filter [("$pull", VDict [(field, value)])] = (c, Ok 1).
Proof.
  intros c filter _id doc field l value Hf Hn Hh Hd Hl Hc Hv.
  destruct (store_split_find _ _ _ Hd) as (pre & k & post & Hs & Hk).
  assert (Hpush : apply_update doc [("$push", VDict [(field, value)])]
                  = (dict_set doc field (VList (l ++ [value])), Ok tt)).
  { unfold apply_update, apply_fields, apply_field.
    cbn [String.eqb Ascii.eqb Bool.eqb]. now rewrite Hl. }
  assert (Hpull : apply_update (dict_set doc field (VList (l ++ [value])))
                    [("$pull", VDict [(field, value)])]
                  = (doc, Ok tt)).
  { unfold apply_update, apply_fields, apply_field.
    cbn [String.eqb Ascii.eqb Bool.eqb].
    unfold dict_get. rewrite dict_find_set_same.
    rewrite list_contains_app_last by exact Hv.
    rewrite list_remove_app_last by assumption.
    rewrite dict_set_twice. now rewrite dict_set_same. }
  eexists. split; [|split].
  - unfold update_one. rewrite (select_by_id c filter _id Hf Hn Hh), Hs, Hpush.
    reflexivity.
  - cbn [_docs].
    exact (store_split_lookup _ _ _ _ _ _
             (store_split_replace _ _ _ _ _ _ _ Hs)).
  - unfold update_one. rewrite (select_by_id _ filter _id Hf Hn Hh).
    cbn [_docs]. rewrite (store_split_replace _ _ _ _ _ _ _ Hs), Hpull.
    apply store_split_app in Hs. destruct c as [docs]. cbn [_docs] in Hs.
    now rewrite Hs.
Qed.

Lemma push_then_pull_restores_witness :
  exists c1,
    update_one
      (mkCollection [(VStr "c", [("_id", VStr "c");
                                 ("participants", VList [VStr "a@x"])])])
      [("_id", VStr "c")] [("$push", VDict [("participants", VStr "b@x")])]
      = (c1, Ok 1) /\
    store_find (VStr "c") (_docs c1)
      = Some (dict_set [("_id", VStr "c"); ("participants", VList [VStr "a@x"])]
                "participants" (VList ([VStr "a@x"] ++ [VStr "b@x"]))) /\
    update_one c1 [("_id", VStr "c")]
      [("$pull", VDict [("participants", VStr "b@x")])]
      = (mkCollection [(VStr "c", [("_id", VStr "c");
                                   ("participants", VList [VStr "a@x"])])],
         Ok 1).
Proof.
  apply (push_then_pull_restores
           (mkCollection [(VStr "c", [("_id", VStr "c");
                                      ("participants", VList [VStr "a@x"])])])
           [("_id", VStr "c")] (VStr "c")
           [("_id", VStr "c"); ("participants", VList [VStr "a@x"])]
           "participants" [VStr "a@x"] (VStr "b@x"));
    [reflexivity|discriminate|reflexivity|reflexivity|reflexivity
    |reflexivity|reflexivity].
Defined.

(** ** Filters: operators, ranges and conjunction *)

Lemma check_condition_unknown : forall ops value,
  unknown_operators ops -> check_condition value ops = Ok true.
Proof.
  induction ops as [|[op operand] ops IH]; intros value H; [reflexivity|].
  inversion H as [|? ? (H1 & H2 & H3) Hrest]; subst. cbn [fst] in *.
  cbn [check_condition]. unfold check_op. rewrite H1, H2, H3. cbn [bind].
  now apply IH.
Qed.

(** X11.  A condition made of operators other than [$in], [$gte] and [$lte]
    (for instance [{"$gt": 5}], or a nested document meant as a literal) is
    satisfied by every document: the unknown operators are skipped and
    nothing raises. *)
Theorem unknown_operators_match_everything :
  forall (doc : dict) (key : string) (ops : dict),
    unknown_operators ops ->
    _matches doc [(key, VDict ops)] = Ok true.
Proof.
  intros doc key ops H. cbn [_matches].
  now rewrite (check_condition_unknown ops _ H).
Qed.

Lemma unknown_operators_match_everything_witness :
  _matches [("x", VInt 1)] [("x", VDict [("$gt", VInt 5)])] = Ok true.
Proof.
  apply (unknown_operators_match_everything
           [("x", VInt 1)] "x" [("$gt", VInt 5)]).
  repeat constructor.
Defined.

(** X12.  For a document whose value at the path is the integer [v], the
    condition [{"$gte": lo, "$lte": hi}] with integer bounds holds exactly
    when [lo <= v <= hi].  For a document where the path is absent or holds
    [None], a condition that starts with [$gte] or [$lte] fails without
    raising, whatever the operand is. *)
Theorem range_condition :
  (forall (doc : dict) (key : string) (v lo hi : Z),
     resolve (VDict doc) (split_dot key) = VInt v ->
     _matches doc [(key, VDict [("$gte", VInt lo); ("$lte", VInt hi)])]
       = Ok ((lo <=? v) && (v <=? hi))) /\
  (forall (doc : dict) (key op : string) (operand : pyval) (rest : dict),
     resolve (VDict doc) (split_dot key) = VNone ->
     op = "$gte" \/ op = "$lte" ->
     _matches doc [(key, VDict ((op, operand) :: rest))] = Ok false).
Proof.
  split.
  - intros doc key v lo hi Hv. cbn [_matches check_condition]. rewrite Hv.
    unfold check_op, py_gt. cbn [String.eqb Ascii.eqb Bool.eqb py_lt bind].
    rewrite <- !Z.leb_antisym.
    destruct (lo <=? v); cbn [bind andb]; [|reflexivity].
    now destruct (v <=? hi).
  - intros doc key op operand rest Hv [-> | ->];
      cbn [_matches check_condition]; rewrite Hv; reflexivity.
Qed.

Lemma range_condition_witness :
  _matches [("max_participants", VInt 20)]
    [("max_participants", VDict [("$gte", VInt 15); ("$lte", VInt 25)])]
  = Ok ((15 <=? 20) && (20 <=? 25)).
Proof.
  apply (proj1 range_condition [("max_participants", VInt 20)]
           "max_participants" 20 15 25).
  reflexivity.
Defined.

(** X13.  The conditions of a filter are taken in order and joined by "and":
    the filter [q1] followed by [q2] is decided by [q1], then by [q2] only
    when [q1] holds, so that a condition after a failed one is not evaluated
    and cannot raise. *)
Theorem matches_conjunction : forall (doc : dict) (q1 q2 : dict),
  _matches doc (q1 ++ q2)%list =
  (b <- _matches doc q1 ;; if b then _matches doc q2 else Ok false).
Proof.
  intros doc q1 q2. induction q1 as [|[key condition] q1 IH]; simpl.
  - now destruct (_matches doc q2).
  - destruct (match condition with
              | VDict ops =>
                  check_condition (resolve (VDict doc) (split_dot key)) ops
              | _ => Ok (py_eq (resolve (VDict doc) (split_dot key)) condition)
              end) as [[|]|e]; simpl; auto.
Qed.

(** ** Updates that change nothing *)

Lemma apply_fields_unknown : forall fields doc op,
  unknown_update_operator op -> apply_fields doc op fields = (doc, Ok tt).
Proof.
  intros fields doc op (H1 & H2 & H3).
  induction fields as [|[field value] rest IH]; [reflexivity|].
  cbn [apply_fields]. unfold apply_field. now rewrite H1, H2, H3.
Qed.

(** X14.  An operator other than [$push], [$pull] and [$set] is ignored:
    [update_one] with such an operator leaves the collection as it is, and
    still returns [modified_count] 1 when the filter selects a document (0
    when it selects none). *)
Theorem unknown_update_operator_changes_nothing :
  forall (c : InMemoryCollection) (filter : dict) (op : string) (fields : dict),
    unknown_update_operator op ->
    update_one c filter [(op, VDict fields)] =
    (c, match select c filter with
        | Ok (Some _) => Ok 1
        | Ok None => Ok 0
        | Raise e => Raise e
        end).
Proof.
  intros c filter op fields H. unfold update_one.
  destruct (select c filter) as [[[[pre [k doc]] post]|]|e] eqn:Hs;
    try reflexivity.
  cbn [apply_update]. rewrite (apply_fields_unknown fields doc op H).
  apply select_app in Hs. destruct c as [docs]. cbn [_docs] in Hs.
  now rewrite Hs.
Qed.

Lemma unknown_update_operator_changes_nothing_witness :
  update_one one_doc_collection [("_id", VStr "a")]
    [("$inc", VDict [("x", VInt 1)])] =
  (one_doc_collection,
   match select one_doc_collection [("_id", VStr "a")] with
   | Ok (Some _) => Ok 1
   | Ok None => Ok 0
   | Raise e => Raise e
   end).
Proof.
  apply (unknown_update_operator_changes_nothing one_doc_collection
           [("_id", VStr "a")] "$inc" [("x", VInt 1)]).
  repeat split.
Defined.

(** X15.  A filter whose [_id] is a list or a dict, such as
    [{"_id": {"$in": [...]}}], cannot be used for the direct lookup:
    [update_one] raises [TypeError] and leaves the collection as it is, and
    so does [find_one] when [_id] is the only key. *)
Theorem unhashable_id_filter_raises :
  forall (c : InMemoryCollection) (filter update : dict) (_id : pyval),
    dict_find "_id" filter = Some _id ->
    hashable _id = false ->
    update_one c filter update = (c, Raise TypeError) /\
    find_one c [("_id", _id)] = Raise TypeError.
Proof.
  intros c filter update _id Hf Hh.
  assert (Hn : is_none _id = false) by (destruct _id; try discriminate; auto).
  split.
  - unfold update_one, select, dict_get. now rewrite Hf, Hn, Hh.
  - unfold find_one.
    change (dict_get [("_id", _id)] "_id" VNone) with _id.
    now rewrite Hn, Hh.
Qed.

Lemma unhashable_id_filter_raises_witness :
  update_one one_doc_collection
    [("_id", VDict [("$in", VList [VStr "a"])])]
    [("$set", VDict [("x", VInt 2)])] = (one_doc_collection, Raise TypeError) /\
  find_one one_doc_collection [("_id", VDict [("$in", VList [VStr "a"])])]
    = Raise TypeError.
Proof.
  apply (unhashable_id_filter_raises one_doc_collection
           [("_id", VDict [("$in", VList [VStr "a"])])]
           [("$set", VDict [("x", VInt 2)])]
           (VDict [("$in", VList [VStr "a"])])); reflexivity.
Defined.

(** ** [$sort] on any keys *)

Lemma sort_insert_perm : forall (A : Type) (key : A -> pyval) x l r,
  sort_insert key x l = Ok r -> Permutation (x :: l) r.
Proof.
  intros A key x. induction l as [|y l IH]; intros r H; simpl in H.
  - inversion H. reflexivity.
  - destruct (py_lt (key y) (key x)) as [[|]|e]; simpl in H;
      try discriminate.
    + destruct (sort_insert key x l) as [r'|e] eqn:E; simpl in H;
        [|discriminate].
      inversion H; subst. rewrite perm_swap. constructor. now apply IH.
    + inversion H. reflexivity.
Qed.

Lemma stable_sort_perm : forall (A : Type) (key : A -> pyval) l r,
  stable_sort key l = Ok r -> Permutation l r.
Proof.
  intros A key. induction l as [|x l IH]; intros r H; simpl in H.
  - inversion H. constructor.
  - destruct (stable_sort key l) as [s|e] eqn:E; simpl in H; [|discriminate].
    rewrite <- (sort_insert_perm A key x s r H). constructor. now apply IH.
Qed.

Lemma list_sort_perm : forall (A : Type) (key : A -> pyval) reverse l r,
  list_sort key reverse l = Ok r -> Permutation l r.
Proof.
  intros A key reverse l r H. unfold list_sort in H. destruct reverse.
  - destruct (stable_sort key (rev l)) as [s|e] eqn:E; simpl in H;
      [|discriminate].
    inversion H; subst. apply stable_sort_perm in E.
    rewrite <- Permutation_rev, <- E. apply Permutation_rev.
  - now apply stable_sort_perm in H.
Qed.

Lemma sort_passes_perm : forall passes docs r,
  sort_passes passes docs = Ok r -> Permutation docs r.
Proof.
  induction passes as [|[k direction] passes IH]; intros docs r H; simpl in H.
  - inversion H. reflexivity.
  - destruct (list_sort (sort_key k) _ docs) as [docs'|e] eqn:E; simpl in H;
      [|discriminate].
    apply list_sort_perm in E. rewrite E. now apply IH.
Qed.

(** X16.  Whatever the keys and the values are, a [$sort] stage that returns
    gives back the documents it was given, each as often as it came in: no
    document is lost, added or altered. *)
Theorem sort_stage_permutes :
  forall (sort_spec : dict) (docs sorted : list dict),
    sort_stage sort_spec docs = Ok sorted -> Permutation docs sorted.
Proof.
  intros sort_spec docs sorted H. unfold sort_stage in H.
  now apply sort_passes_perm in H.
Qed.

Lemma sort_stage_permutes_witness :
  Permutation
    [[("_id", VInt 1); ("a", VStr "x")]; [("_id", VInt 2)]]
    [[("_id", VInt 2)]; [("_id", VInt 1); ("a", VStr "x")]].
Proof.
  apply (sort_stage_permutes [("a", VInt 1)]). reflexivity.
Defined.

Lemma sort_passes_short : forall passes docs,
  (length docs <= 1)%nat -> sort_passes passes docs = Ok docs.
Proof.
  induction passes as [|[k direction] passes IH]; intros docs H;
    [reflexivity|].
  cbn [sort_passes].
  assert (Hs : list_sort (sort_key k) (py_eq direction (VInt (-1))) docs
               = Ok docs).
  { destruct docs as [|d [|d' docs]]; simpl in H; try lia;
      unfold list_sort; now destruct (py_eq direction (VInt (-1))). }
  rewrite Hs. cbn [bind]. now apply IH.
Qed.

(** X17.  A [$sort] stage over no document or over a single document never
    raises and returns its input, whatever the keys and the values are: no
    comparison is made. *)
Theorem sort_stage_of_at_most_one :
  forall (sort_spec : dict) (docs : list dict),
    (length docs <= 1)%nat -> sort_stage sort_spec docs = Ok docs.
Proof.
  intros sort_spec docs H. unfold sort_stage. now apply sort_passes_short.
Qed.

Lemma sort_stage_of_at_most_one_witness :
  sort_stage [("a", VInt 1)] [[("_id", VInt 1); ("a", VNone)]]
  = Ok [[("_id", VInt 1); ("a", VNone)]].
Proof.
  apply (sort_stage_of_at_most_one [("a", VInt 1)]
           [[("_id", VInt 1); ("a", VNone)]]).
  simpl. lia.
Defined.

(** ** [init_database] from any state *)


(** ** [$group]: one output per distinct key *)

Lemma store_find_none_keys : forall (s : list (pyval * dict)) k,
  store_find k s = None -> Forall (fun e => py_eq k (fst e) = false) s.
Proof.
  induction s as [|[k' v] s IH]; intros k H; simpl in H; constructor.
  - simpl. now destruct (py_eq k k').
  - apply IH. now destruct (py_eq k k').
Qed.

Lemma store_find_some_key : forall (s : list (pyval * dict)) k v,
  store_find k s = Some v -> exists k', In (k', v) s /\ py_eq k k' = true.
Proof.
  induction s as [|[k' v'] s IH]; intros k v H; simpl in H; [discriminate|].
  destruct (py_eq k k') eqn:E.
  - inversion H; subst. exists k'. split; [now left|exact E].
  - destruct (IH k v H) as (k0 & Hin & Hk). exists k0. split; [now right|auto].
Qed.

Lemma store_set_keys : forall (s : list (pyval * dict)) k v,
  map fst (store_set s k v) =
  match store_find k s with
  | Some _ => map fst s
  | None => (map fst s ++ [k])%list
  end.
Proof.
  induction s as [|[k' v'] s IH]; intros k v; simpl; [reflexivity|].
  destruct (py_eq k k'); simpl; [reflexivity|].
  rewrite IH. now destruct (store_find k s).
Qed.

Lemma distinct_keys_snoc : forall ks k,
  distinct_keys ks ->
  Forall (fun a => py_eq a k = false) ks ->
  distinct_keys (ks ++ [k]).
Proof.
  unfold distinct_keys. intros ks k H. induction H as [|a ks Ha Hks IH];
    intros Hk; simpl.
  - repeat constructor.
  - inversion Hk; subst. constructor; [|now apply IH].
    apply Forall_app. split; [exact Ha|]. now repeat constructor.
Qed.

Lemma store_set_group_ok : forall groups k,
  Forall group_ok groups ->
  distinct_keys (map fst groups) ->
  hashable k = true ->
  Forall group_ok (store_set groups k [("_id", k)]) /\
  distinct_keys (map fst (store_set groups k [("_id", k)])).
Proof.
  intros groups k Hok Hd Hk. split.
  - apply Forall_forall. intros [k0 v0] Hin.
    rewrite Forall_forall in Hok.
    destruct (store_set_in _ _ _ _ _ Hin) as [Hold|(-> & [->|Heq])].
    + now apply Hok.
    + split; [exact Hk|]. exists k. repeat split; auto.
      now apply hashable_py_eq_refl.
    + split; [now apply (py_eq_hashable_right _ _ Hk Heq)|].
      exists k. repeat split; auto.
  - rewrite store_set_keys.
    destruct (store_find k groups) eqn:E; [exact Hd|].
    apply distinct_keys_snoc; [exact Hd|].
    apply store_find_none_keys in E.
    rewrite Forall_forall in *. intros a Ha.
    apply in_map_iff in Ha. destruct Ha as ([k' v'] & <- & Hin).
    cbn [fst]. rewrite py_eq_scalar_sym; auto.
    + now apply (E (k', v')).
    + now destruct (Hok (k', v') Hin).
Qed.

Lemma store_set_covers : forall (groups : list (pyval * dict)) k v,
  py_eq k k = true ->
  exists k', In k' (map fst (store_set groups k v)) /\ py_eq k k' = true.
Proof.
  intros groups k v Hk. rewrite store_set_keys.
  destruct (store_find k groups) as [w|] eqn:E.
  - destruct (store_find_some_key _ _ _ E) as (k' & Hin & Heq).
    exists k'. split; [|exact Heq]. now apply (in_map fst) in Hin.
  - exists k. split; [|exact Hk]. apply in_or_app. right. now left.
Qed.

Lemma store_set_keeps_keys : forall (groups : list (pyval * dict)) k v k0,
  In k0 (map fst groups) -> In k0 (map fst (store_set groups k v)).
Proof.
  intros groups k v k0 H. rewrite store_set_keys.
  destruct (store_find k groups); [exact H|].
  apply in_or_app. now left.
Qed.

Lemma group_docs_spec : forall key_path id_expr docs groups,
  Forall group_ok groups ->
  distinct_keys (map fst groups) ->
  Forall (fun d => hashable (group_key key_path id_expr d) = true) docs ->
  exists groups',
    group_docs key_path id_expr docs groups = Ok groups' /\
    Forall group_ok groups' /\
    distinct_keys (map fst groups') /\
    (forall k, In k (map fst groups) -> In k (map fst groups')) /\
    (forall d, In d docs ->
       exists k', In k' (map fst groups') /\
                  py_eq (group_key key_path id_expr d) k' = true) /\
    (forall e, In e groups' ->
       In e groups \/
       exists d, In d docs /\ snd e = [("_id", group_key key_path id_expr d)]).
Proof.
  intros key_path id_expr.
  induction docs as [|doc docs IH]; intros groups Hok Hd Hh.
  - exists groups. repeat split; auto. intros d [].
  - inversion Hh as [|? ? Hdoc Hrest]; subst.
    cbn [group_docs].
    change (match key_path with
            | Some ((_ :: _) as path) => group_value (VDict doc) path
            | _ => id_expr
            end) with (group_key key_path id_expr doc).
    rewrite Hdoc.
    set (k := group_key key_path id_expr doc) in *.
    destruct (store_set_group_ok groups k Hok Hd Hdoc) as [Hok' Hd'].
    destruct (IH _ Hok' Hd' Hrest)
      as (groups' & Hg & Hok2 & Hd2 & Hkeep & Hcov & Hsrc).
    exists groups'. split; [exact Hg|]. split; [exact Hok2|].
    split; [exact Hd2|]. split; [|split].
    + intros k0 Hk0. apply Hkeep. now apply store_set_keeps_keys.
    + intros d [<-|Hin]; [|now apply Hcov].
      destruct (store_set_covers groups k [("_id", k)]
                  (hashable_py_eq_refl k Hdoc)) as (k' & Hin' & Heq).
      exists k'. split; [now apply Hkeep|exact Heq].
    + intros e He. destruct (Hsrc e He) as [Hin|(d & Hin & Hs)].
      * destruct e as [k0 v0].
        destruct (store_set_in _ _ _ _ _ Hin) as [Hold|(-> & _)].
        -- now left.
        -- right. exists doc. split; [now left|reflexivity].
      * right. exists d. split; [now right|exact Hs].
Qed.

Lemma distinct_ids_of_groups : forall groups,
  Forall group_ok groups ->
  distinct_keys (map fst groups) ->
  distinct_ids (map snd groups).
Proof.
  unfold distinct_keys, distinct_ids.
  induction groups as [|[k o] groups IH]; intros Hok Hd; simpl;
    [constructor|].
  inversion Hok as [|? ? Hko Hok']; subst.
  inversion Hd as [|? ? Hk Hd']; subst.
  constructor; [|now apply IH].
  apply Forall_forall. intros o' Ho'.
  apply in_map_iff in Ho'. destruct Ho' as ([k' o2] & <- & Hin).
  rewrite Forall_forall in Hk, Hok'.
  pose proof (Hk k' (in_map fst _ _ Hin)) as Hkk'.
  destruct Hko as (Hhk & v & Ho & Hhv & Hvk).
  destruct (Hok' _ Hin) as (Hhk' & v' & Ho2 & Hhv' & Hvk').
  cbn [fst snd] in *. subst o o2.
  change (py_eq v v' = false).
  destruct (py_eq v v') eqn:E; [|reflexivity].
  rewrite <- Hkk'. symmetry.
  apply py_eq_scalar_trans with v; auto.
  { now rewrite py_eq_scalar_sym. }
  now apply py_eq_scalar_trans with v'.
Qed.

Lemma group_stage_spec :
  forall (group_spec : dict) (id_expr : pyval) (docs : list dict),
    dict_find "_id" group_spec = Some id_expr ->
    Forall (fun d => hashable (group_key (group_key_path id_expr) id_expr d)
                     = true) docs ->
    exists outs,
      group_stage (VDict group_spec) docs = Ok outs /\
      Forall (fun o => exists d,
                In d docs /\
                o = [("_id", group_key (group_key_path id_expr) id_expr d)])
             outs /\
      distinct_ids outs /\
      (forall d, In d docs ->
         exists o, In o outs /\
           py_eq (group_key (group_key_path id_expr) id_expr d)
                 (dict_get o "_id" VNone) = true).
Proof.
  intros group_spec id_expr docs Hid Hh.
  destruct (group_docs_spec (group_key_path id_expr) id_expr docs []
              (Forall_nil _) (FOP_nil _) Hh)
    as (groups & Hg & Hok & Hd & _ & Hcov & Hsrc).
  exists (map snd groups). split; [|split; [|split]].
  - unfold group_stage. rewrite Hid. cbn [bind].
    change (match id_expr with
            | VStr s =>
                if startswith_dollar s
                then Some (split_dot (lstrip_dollar s))
                else None
            | _ => None
            end) with (group_key_path id_expr).
    now rewrite Hg.
  - apply Forall_forall. intros o Ho.
    apply in_map_iff in Ho. destruct Ho as (e & <- & He).
    destruct (Hsrc e He) as [[]|(d & Hin & Hs)]. now exists d.
  - now apply distinct_ids_of_groups.
  - intros d Hin. destruct (Hcov d Hin) as (k' & Hk' & Heq).
    apply in_map_iff in Hk'. destruct Hk' as ([k0 o] & Hfst & He).
    cbn [fst] in Hfst. subst k0.
    exists o. split; [now apply (in_map snd) in He|].
    rewrite Forall_forall in Hok, Hh.
    destruct (Hok _ He) as (Hhk & v & Ho & Hhv & Hvk). cbn [fst snd] in *.
    subst o. change (dict_get [("_id", v)] "_id" VNone) with v.
    apply py_eq_scalar_trans with k'; auto.
    now rewrite py_eq_scalar_sym.
Qed.

(** X19.  A [$group] stage whose grouping keys are all hashable does not
    raise.  Every output is [{"_id": key}] for the key of some input
    document, no two outputs have equal [_id], and every input document has
    an output whose [_id] equals its key: one output per distinct key. *)
Theorem group_stage_one_output_per_key :
  forall (group_spec : dict) (id_expr : pyval) (docs : list dict),
    dict_find "_id" group_spec = Some id_expr ->
    Forall (fun d => hashable (group_key (group_key_path id_expr) id_expr d)
                     = true) docs ->
    exists outs,
      group_stage (VDict group_spec) docs = Ok outs /\
      Forall (fun o => exists d,
                In d docs /\
                o = [("_id", group_key (group_key_path id_expr) id_expr d)])
             outs /\
      distinct_ids outs /\
      (forall d, In d docs ->
         exists o, In o outs /\
           py_eq (group_key (group_key_path id_expr) id_expr d)
                 (dict_get o "_id" VNone) = true).
Proof. exact group_stage_spec. Qed.

Lemma group_stage_one_output_per_key_witness :
  exists outs,
    group_stage (VDict [("_id", VStr "$a")])
      [[("_id", VInt 1); ("a", VInt 1)]; [("_id", VInt 2); ("a", VInt 1)]]
      = Ok outs /\
    Forall (fun o => exists d,
              In d [[("_id", VInt 1); ("a", VInt 1)];
                    [("_id", VInt 2); ("a", VInt 1)]] /\
              o = [("_id", group_key (group_key_path (VStr "$a"))
                             (VStr "$a") d)]) outs /\
    distinct_ids outs /\
    (forall d, In d [[("_id", VInt 1); ("a", VInt 1)];
                     [("_id", VInt 2); ("a", VInt 1)]] ->
       exists o, In o outs /\
         py_eq (group_key (group_key_path (VStr "$a")) (VStr "$a") d)
               (dict_get o "_id" VNone) = true).
Proof.
  apply (group_stage_one_output_per_key [("_id", VStr "$a")] (VStr "$a")
           [[("_id", VInt 1); ("a", VInt 1)];
            [("_id", VInt 2); ("a", VInt 1)]]);
    [reflexivity|repeat constructor].
Defined.

(** ** [$unwind] over a list of documents *)

Lemma unwind_doc_count : forall parts doc,
  parts <> [] ->
  exists outs,
    unwind_doc parts doc = Ok outs /\
    length outs = unwind_count parts doc.
Proof.
  intros parts doc Hne. unfold unwind_doc, unwind_count.
  rewrite unwind_value_lookup, deepcopy_dict_id.
  destruct (lookup_path (VDict doc) parts) as [w|] eqn:Hl;
    [|now exists []].
  destruct w; try (now exists [doc]).
  destruct (unwind_items parts doc (VList l) l Hne Hl) as (outs & Ho & Hf).
  exists outs. split; [exact Ho|]. symmetry. now apply Forall2_length in Hf.
Qed.

Lemma unwind_docs_count : forall parts docs,
  parts <> [] ->
  exists outs,
    unwind_docs parts docs = Ok outs /\
    length outs = list_sum (map (unwind_count parts) docs).
Proof.
  intros parts docs Hne. induction docs as [|doc docs (outs & Ho & Hl)].
  - now exists [].
  - destruct (unwind_doc_count parts doc Hne) as (out & Hd & Hc).
    exists (out ++ outs)%list. cbn [unwind_docs]. rewrite Hd, Ho.
    split; [reflexivity|]. rewrite length_app. simpl. now rewrite Hc, Hl.
Qed.

(** X20.  An [$unwind] stage whose path is a string never raises, whatever
    the documents are.  It emits, for each document, as many outputs as the
    list at the path has items, one output when the value there is not a
    list, and none when the path is absent. *)
Theorem unwind_stage_never_raises :
  forall (stage : dict) (path : string) (docs : list dict),
    dict_find "$unwind" stage = Some (VStr path) ->
    exists outs,
      run_stage stage docs = Ok outs /\
      length outs =
        list_sum (map (unwind_count (split_dot (lstrip_dollar path))) docs).
Proof.
  intros stage path docs Hs. unfold run_stage, dict_mem, dict_get.
  rewrite Hs. apply unwind_docs_count. apply split_dot_not_nil.
Qed.

Lemma unwind_stage_never_raises_witness :
  exists outs,
    run_stage [("$unwind", VStr "$days")]
      [[("_id", VInt 1); ("days", VList [VStr "Mon"; VStr "Fri"])];
       [("_id", VInt 2)]] = Ok outs /\
    length outs =
      list_sum (map (unwind_count (split_dot (lstrip_dollar "$days")))
                  [[("_id", VInt 1); ("days", VList [VStr "Mon"; VStr "Fri"])];
                   [("_id", VInt 2)]]).
Proof.
  apply (unwind_stage_never_raises [("$unwind", VStr "$days")] "$days").
  reflexivity.
Defined.

(** ** Several operators in one update *)

Lemma apply_update_app : forall u1 u2 doc,
  apply_update doc (u1 ++ u2)%list =
  match apply_update doc u1 with
  | (doc1, Ok _) => apply_update doc1 u2
  | (doc1, Raise e) => (doc1, Raise e)
  end.
Proof.
  induction u1 as [|[op fields] u1 IH]; intros u2 doc; [reflexivity|].
  cbn [app apply_update]. destruct fields; try reflexivity.
  destruct (apply_fields doc op d) as [doc' [[]|e]]; [apply IH|reflexivity].
Qed.

(** X21.  The operators of an update apply in order, each to the document
    the previous ones left: with a filter that selects by [_id], one
    [update_one] with the operators [u1] followed by [u2] does what
    [update_one] with [u1], when it returns 1, followed by [update_one] with
    [u2] does. *)
Theorem update_one_operators_compose :
  forall (c : InMemoryCollection) (filter u1 u2 : dict) (_id : pyval),
    dict_find "_id" filter = Some _id ->
    _id <> VNone ->
    hashable _id = true ->
    snd (update_one c filter u1) = Ok 1 ->
    update_one c filter (u1 ++ u2)%list =
    update_one (fst (update_one c filter u1)) filter u2.
Proof.
  intros c filter u1 u2 _id Hf Hn Hh H1.
  unfold update_one in *.
  rewrite (select_by_id c filter _id Hf Hn Hh) in *.
  destruct (store_split _id (_docs c)) as [[[pre [k doc]] post]|] eqn:Hs;
    [|discriminate H1].
  rewrite apply_update_app.
  destruct (apply_update doc u1) as [doc1 [[]|e]]; [|discriminate H1].
  cbn [fst]. rewrite (select_by_id _ filter _id Hf Hn Hh). cbn [_docs].
  now rewrite (store_split_replace _ _ _ _ _ _ doc1 Hs).
Qed.

Lemma update_one_operators_compose_witness :
  update_one one_doc_collection [("_id", VStr "a")]
    ([("$set", VDict [("x", VInt 2)])]
     ++ [("$push", VDict [("l", VInt 1)])])%list =
  update_one
    (fst (update_one one_doc_collection [("_id", VStr "a")]
            [("$set", VDict [("x", VInt 2)])]))
    [("_id", VStr "a")] [("$push", VDict [("l", VInt 1)])].
Proof.
  apply (update_one_operators_compose one_doc_collection
           [("_id", VStr "a")] [("$set", VDict [("x", VInt 2)])]
           [("$push", VDict [("l", VInt 1)])] (VStr "a"));
    [reflexivity|discriminate|reflexivity|reflexivity].
Defined.

(** ** [$unwind] followed by [$group] *)

Lemma group_value_lookup : forall parts v w,
  lookup_path v parts = Some w -> group_value v parts = w.
Proof.
  induction parts as [|p rest IH]; intros v w H; simpl in *.
  - now inversion H.
  - destruct v; try discriminate. unfold dict_get.
    destruct (dict_find p d); [now apply IH|discriminate].
Qed.

Lemma Forall2_in_left : forall (A B : Type) (R : A -> B -> Prop) l1 l2 x,
  Forall2 R l1 l2 -> In x l1 -> exists y, In y l2 /\ R x y.
Proof.
  intros A B R l1 l2 x H. induction H as [|a b l1 l2 Hab _ IH]; intros Hin.
  - destruct Hin.
  - destruct Hin as [<-|Hin].
    + exists b. split; [now left|exact Hab].
    + destruct (IH Hin) as (y & Hy & Hr). exists y. split; [now right|auto].
Qed.

Lemma Forall2_in_right : forall (A B : Type) (R : A -> B -> Prop) l1 l2 y,
  Forall2 R l1 l2 -> In y l2 -> exists x, In x l1 /\ R x y.
Proof.
  intros A B R l1 l2 y H. induction H as [|a b l1 l2 Hab _ IH]; intros Hin.
  - destruct Hin.
  - destruct Hin as [<-|Hin].
    + exists a. split; [now left|exact Hab].
    + destruct (IH Hin) as (x & Hx & Hr). exists x. split; [now right|auto].
Qed.

Lemma unwind_doc_items : forall parts doc,
  parts <> [] ->
  exists outs,
    unwind_doc parts doc = Ok outs /\
    (forall o, In o outs ->
       exists v, lookup_path (VDict o) parts = Some v /\
                 unwind_item parts doc v) /\
    (forall v, unwind_item parts doc v ->
       exists o, In o outs /\ lookup_path (VDict o) parts = Some v).
Proof.
  intros parts doc Hne. unfold unwind_doc, unwind_item.
  rewrite unwind_value_lookup, deepcopy_dict_id.
  destruct (lookup_path (VDict doc) parts) as [w|] eqn:Hl.
  - assert (Hpass : forall w', lookup_path (VDict doc) parts = Some w' ->
              exists outs : list dict,
                Ok [doc] = Ok outs /\
                (forall o, In o outs ->
                   exists v, lookup_path (VDict o) parts = Some v /\ v = w') /\
                (forall v, v = w' ->
                   exists o, In o outs /\
                             lookup_path (VDict o) parts = Some v)).
    { intros w' Hw. exists [doc]. split; [reflexivity|]. split.
      - intros o [<-|[]]. now exists w'.
      - intros v ->. exists doc. split; [now left|exact Hw]. }
    destruct w; try (now apply Hpass).
    destruct (unwind_items parts doc (VList l) l Hne Hl) as (outs & Ho & Hf).
    exists outs. split; [exact Ho|]. split.
    + intros o Hin.
      destruct (Forall2_in_right _ _ _ _ _ o Hf Hin) as (v & Hv & Hr).
      now exists v.
    + intros v Hin.
      destruct (Forall2_in_left _ _ _ _ _ v Hf Hin) as (o & Ho' & Hr).
      now exists o.
  - exists []. split; [reflexivity|]. split; [intros o []|intros v []].
Qed.

Lemma unwind_docs_items : forall parts docs,
  parts <> [] ->
  exists outs,
    unwind_docs parts docs = Ok outs /\
    (forall o, In o outs ->
       exists d v, In d docs /\ lookup_path (VDict o) parts = Some v /\
                   unwind_item parts d v) /\
    (forall d v, In d docs -> unwind_item parts d v ->
       exists o, In o outs /\ lookup_path (VDict o) parts = Some v).
Proof.
  intros parts docs Hne.
  induction docs as [|doc docs (outs & Ho & Hfrom & Hto)].
  - exists []. split; [reflexivity|]. split; [intros o []|intros d v []].
  - destruct (unwind_doc_items parts doc Hne) as (out & Hd & Hf1 & Ht1).
    exists (out ++ outs)%list. cbn [unwind_docs]. rewrite Hd, Ho.
    split; [reflexivity|]. split.
    + intros o Hin. apply in_app_or in Hin. destruct Hin as [Hin|Hin].
      * destruct (Hf1 o Hin) as (v & Hv & Hi). exists doc, v.
        split; [now left|auto].
      * destruct (Hfrom o Hin) as (d & v & Hd' & Hv & Hi). exists d, v.
        split; [now right|auto].
    + intros d v [<-|Hin] Hi.
      * destruct (Ht1 v Hi) as (o & Ho' & Hv). exists o.
        split; [apply in_or_app; now left|exact Hv].
      * destruct (Hto d v Hin Hi) as (o & Ho' & Hv). exists o.
        split; [apply in_or_app; now right|exact Hv].
Qed.

Lemma unwind_item_hashable : forall parts doc v,
  unwind_hashable parts doc = true ->
  unwind_item parts doc v ->
  hashable v = true.
Proof.
  intros parts doc v Hh Hi. unfold unwind_hashable, unwind_item in *.
  destruct (lookup_path (VDict doc) parts) as [w|]; [|destruct Hi].
  destruct w; try (subst v; exact Hh).
  rewrite forallb_forall in Hh. now apply Hh.
Qed.

(** X22.  The pipeline [[{"$unwind": path}, {"$group": {"_id": path}}]],
    for a path that starts with [$], returns the distinct values found at
    the path: when the items of the lists at the path (and the values there
    that are not lists) are hashable, it does not raise, every output is
    [{"_id": v}] for such an item [v] of a stored document, no two outputs
    have equal [_id], and every such item has an output with an equal
    [_id]. *)
Theorem unwind_then_group_distinct_values :
  forall (c : InMemoryCollection) (path : string),
    startswith_dollar path = true ->
    Forall (fun d => unwind_hashable (split_dot (lstrip_dollar path)) d = true)
           (values c) ->
    exists outs,
      aggregate c [[("$unwind", VStr path)];
                   [("$group", VDict [("_id", VStr path)])]] = Ok outs /\
      distinct_ids outs /\
      (forall o, In o outs ->
         exists d v, In d (values c) /\
                     unwind_item (split_dot (lstrip_dollar path)) d v /\
                     o = [("_id", v)]) /\
      (forall d v, In d (values c) ->
         unwind_item (split_dot (lstrip_dollar path)) d v ->
         exists o, In o outs /\ py_eq v (dict_get o "_id" VNone) = true).
Proof.
  intros c path Hp Hh.
  set (parts := split_dot (lstrip_dollar path)) in *.
  assert (Hne : parts <> []) by apply split_dot_not_nil.
  destruct (unwind_docs_items parts (values c) Hne)
    as (outs1 & Hu & Hfrom & Hto).
  assert (Hkp : group_key_path (VStr path) = Some parts)
    by (unfold group_key_path; now rewrite Hp).
  assert (Hgk : forall o v, lookup_path (VDict o) parts = Some v ->
            group_key (group_key_path (VStr path)) (VStr path) o = v).
  { intros o v Hl. rewrite Hkp. unfold group_key.
    destruct parts as [|p rest]; [now elim Hne|].
    now apply group_value_lookup. }
  rewrite Forall_forall in Hh.
  destruct (group_stage_spec [("_id", VStr path)] (VStr path) outs1 eq_refl)
    as (outs & Hg & Hsrc & Hdist & Hcov).
  { apply Forall_forall. intros o Ho.
    destruct (Hfrom o Ho) as (d & v & Hd & Hl & Hi).
    rewrite (Hgk o v Hl).
    apply (unwind_item_hashable parts d v); auto. }
  exists outs. split; [|split; [exact Hdist|split]].
  - unfold aggregate.
    rewrite map_ext with (g := fun d => d) by apply deepcopy_dict_id.
    rewrite map_id. cbn [run_pipeline]. unfold run_stage at 1.
    cbn [dict_mem dict_get dict_find String.eqb Ascii.eqb Bool.eqb].
    fold parts. rewrite Hu. cbn [bind]. unfold run_stage.
    cbn [dict_mem dict_get dict_find String.eqb Ascii.eqb Bool.eqb].
    rewrite Hg. reflexivity.
  - intros o Ho. rewrite Forall_forall in Hsrc.
    destruct (Hsrc o Ho) as (o1 & Ho1 & ->).
    destruct (Hfrom o1 Ho1) as (d & v & Hd & Hl & Hi).
    exists d, v. rewrite (Hgk o1 v Hl). auto.
  - intros d v Hd Hi.
    destruct (Hto d v Hd Hi) as (o1 & Ho1 & Hl).
    destruct (Hcov o1 Ho1) as (o & Ho & Heq).
    exists o. split; [exact Ho|]. now rewrite (Hgk o1 v Hl) in Heq.
Qed.

Lemma unwind_then_group_distinct_values_witness :
  exists outs,
    aggregate
      (mkCollection
         [(VInt 1, [("_id", VInt 1); ("days", VList [VStr "Mon"; VStr "Fri"])]);
          (VInt 2, [("_id", VInt 2); ("days", VList [VStr "Fri"])])])
      [[("$unwind", VStr "$days")];
       [("$group", VDict [("_id", VStr "$days")])]] = Ok outs /\
    distinct_ids outs /\
    (forall o, In o outs ->
       exists d v,
         In d (values
                 (mkCollection
                    [(VInt 1, [("_id", VInt 1);
                               ("days", VList [VStr "Mon"; VStr "Fri"])]);
                     (VInt 2, [("_id", VInt 2);
                               ("days", VList [VStr "Fri"])])])) /\
         unwind_item (split_dot (lstrip_dollar "$days")) d v /\
         o = [("_id", v)]) /\
    (forall d v,
       In d (values
               (mkCollection
                  [(VInt 1, [("_id", VInt 1);
                             ("days", VList [VStr "Mon"; VStr "Fri"])]);
                   (VInt 2, [("_id", VInt 2);
                             ("days", VList [VStr "Fri"])])])) ->
       unwind_item (split_dot (lstrip_dollar "$days")) d v ->
       exists o, In o outs /\ py_eq v (dict_get o "_id" VNone) = true).
Proof.
  apply (unwind_then_group_distinct_values
           (mkCollection
              [(VInt 1, [("_id", VInt 1);
                         ("days", VList [VStr "Mon"; VStr "Fri"])]);
               (VInt 2, [("_id", VInt 2); ("days", VList [VStr "Fri"])])])
           "$days"); [reflexivity|repeat constructor].
Defined.
